(** * run_clang_format.py: a shallow embedding and its properties

    The script queries the version of [clang-format], checks it against a
    required minimum, collects the files to format from its path arguments
    and runs [clang-format -i --verbose] once over all of them.

    The embedding follows [src/run_clang_format.py] line by line.  Python
    text ([str]) is a list of Unicode code points, process output is a list
    of bytes, and everything the script asks of its surroundings (child
    processes, the file system behind [pathlib], the interpreter's Unicode
    tables) is a field of the record [World].  What the script does to its
    surroundings (starting a process, printing, querying the file system)
    is recorded, in order, in a trace of events.  A query of the file
    system can fail, as a process can: it then raises the error the world
    gives for it. *)

From Stdlib Require Import List ZArith NArith Bool Lia String Ascii.
From Stdlib Require Import Sorting.Sorted Sorting.Permutation.
From Stdlib Require Import Numbers.DecimalString.
From Stdlib Require Numbers.DecimalPos.
Import ListNotations.

Local Open Scope list_scope.

(* ===================================================================== *)
(** ** Text and bytes *)
(* ===================================================================== *)

(** A Python [str] is a sequence of code points. *)
Definition char := N.
Definition str := list char.

(** A Python [bytes] object. *)
Definition bytes := list Byte.byte.

(** Literals of the source are written as Rocq strings. *)
Fixpoint lit (s : string) : str :=
  match s with
  | EmptyString => []
  | String a s' => N_of_ascii a :: lit s'
  end.

Definition bytes_of (s : string) : bytes := list_byte_of_string s.

Definition str_eqb (a b : str) : bool :=
  if list_eq_dec N.eq_dec a b then true else false.

(** [bytes.decode('UTF-8')] with the default strict error handling: [None]
    stands for [UnicodeDecodeError].  Overlong forms, surrogates and code
    points above U+10FFFF are rejected. *)
Definition is_cont (b : N) : bool := ((0x80 <=? b) && (b <=? 0xBF))%N.

Fixpoint utf8_decode_N (bs : list N) : option str :=
  match bs with
  | [] => Some []
  | b0 :: r0 =>
    if (b0 <? 0x80)%N then option_map (cons b0) (utf8_decode_N r0)
    else if (b0 <? 0xC2)%N then None
    else if (b0 <? 0xE0)%N then
      match r0 with
      | b1 :: r1 =>
        if is_cont b1
        then option_map (cons ((b0 - 0xC0) * 64 + (b1 - 0x80))%N)
                        (utf8_decode_N r1)
        else None
      | _ => None
      end
    else if (b0 <? 0xF0)%N then
      match r0 with
      | b1 :: b2 :: r2 =>
        if is_cont b1 && is_cont b2
           && (negb (b0 =? 0xE0)%N || (0xA0 <=? b1)%N)
           && (negb (b0 =? 0xED)%N || (b1 <=? 0x9F)%N)
        then option_map
               (cons ((b0 - 0xE0) * 4096 + (b1 - 0x80) * 64 + (b2 - 0x80))%N)
               (utf8_decode_N r2)
        else None
      | _ => None
      end
    else if (b0 <? 0xF5)%N then
      match r0 with
      | b1 :: b2 :: b3 :: r3 =>
        if is_cont b1 && is_cont b2 && is_cont b3
           && (negb (b0 =? 0xF0)%N || (0x90 <=? b1)%N)
           && (negb (b0 =? 0xF4)%N || (b1 <=? 0x8F)%N)
        then option_map
               (cons ((b0 - 0xF0) * 262144 + (b1 - 0x80) * 4096
                      + (b2 - 0x80) * 64 + (b3 - 0x80))%N)
               (utf8_decode_N r3)
        else None
      | _ => None
      end
    else None
  end.

Definition utf8_decode (b : bytes) : option str :=
  utf8_decode_N (map Byte.to_N b).

(** The characters [str.split()] and [str.rstrip()] treat as whitespace
    ([str.isspace]). *)
Definition is_space (c : char) : bool :=
  (((0x09 <=? c) && (c <=? 0x0D))
   || ((0x1C <=? c) && (c <=? 0x20))
   || (c =? 0x85) || (c =? 0xA0) || (c =? 0x1680)
   || ((0x2000 <=? c) && (c <=? 0x200A))
   || (c =? 0x2028) || (c =? 0x2029) || (c =? 0x202F)
   || (c =? 0x205F) || (c =? 0x3000))%N.

Definition has_space (s : str) : bool := existsb is_space s.

(** [sep.join(l)] *)
Fixpoint join (sep : str) (l : list str) : str :=
  match l with
  | [] => []
  | x :: l' =>
    match l' with
    | [] => x
    | _ :: _ => x ++ sep ++ join sep l'
    end
  end.

(** [s.split()]: the maximal runs of non-whitespace characters, in order.
    [split_go] returns the run that starts the text (possibly empty) and
    the runs after it. *)
Definition push_word (w : str) (ws : list str) : list str :=
  match w with
  | [] => ws
  | _ :: _ => w :: ws
  end.

Fixpoint split_go (s : str) : str * list str :=
  match s with
  | [] => ([], [])
  | c :: s' =>
    let '(w, ws) := split_go s' in
    if is_space c then ([], push_word w ws) else (c :: w, ws)
  end.

Definition split (s : str) : list str :=
  let '(w, ws) := split_go s in push_word w ws.

(** [s.rstrip()] *)
Fixpoint lstrip (s : str) : str :=
  match s with
  | [] => []
  | c :: s' => if is_space c then lstrip s' else s
  end.

Definition rstrip (s : str) : str := rev (lstrip (rev s)).

(** [str(n)] for an integer, as the f-strings and [%d] render it. *)
Definition int_str (z : Z) : str := lit (NilZero.string_of_int (Z.to_int z)).

(* ===================================================================== *)
(** ** Version (lines 16-26) *)
(* ===================================================================== *)

(** [@dataclass(order=True) class Version] *)
Record Version := mkVersion { major : Z; minor : Z; patch : Z }.

(** The ordering the dataclass generates compares the field tuples
    [(major, minor, patch)]; a tuple comparison looks for the first
    position where the two differ and compares there. *)
Definition tuple3_lt (x y : Z * Z * Z) : bool :=
  let '(a, b, c) := x in
  let '(d, e, f) := y in
  if negb (a =? d)%Z then (a <? d)%Z
  else if negb (b =? e)%Z then (b <? e)%Z
  else (c <? f)%Z.

Definition astuple (v : Version) : Z * Z * Z := (major v, minor v, patch v).

Definition Version_lt (v1 v2 : Version) : bool :=
  tuple3_lt (astuple v1) (astuple v2).

(** [Version.__repr__] *)
Definition Version_repr (v : Version) : str :=
  int_str (major v) ++ lit "." ++ int_str (minor v) ++ lit "."
  ++ int_str (patch v).

Definition CLANG_FORMAT_VER_REQ : Version := mkVersion 13 0 1.

(* ===================================================================== *)
(** ** The version pattern (lines 28-30) *)
(* ===================================================================== *)

(** The fragment of [re] patterns the script uses: a literal character, the
    wildcard [.] and a named group holding [\d+]. *)
Inductive re_item :=
| RChar (c : char)
| RAny
| RDigits (name : string).

Definition regex := list re_item.

Definition re_lit (s : string) : regex := map RChar (lit s).

(** [r'clang-format version (?P<major>\d+).(?P<minor>\d+).(?P<patch>\d+)'] *)
Definition CLANG_FORMAT_VER_REGEX : regex :=
  re_lit "clang-format version "
  ++ [RDigits "major"; RAny; RDigits "minor"; RAny; RDigits "patch"].

(** A match object: the named groups and what each captured. *)
Definition re_match := list (string * str).

Fixpoint group (m : re_match) (name : string) : option str :=
  match m with
  | [] => None
  | (n, s) :: m' => if String.eqb n name then Some s else group m' name
  end.

Section Matching.

(** [\d] on text: the decimal digits of the interpreter's Unicode table. *)
Variable is_digit : char -> bool.

(** The longest prefix of digits. *)
Fixpoint digit_run (s : str) : nat :=
  match s with
  | [] => 0
  | c :: s' => if is_digit c then S (digit_run s') else 0
  end.

(** Try [f k], [f (k-1)], ..., [f 1] and keep the first success: a greedy
    [+] gives back one character at a time. *)
Fixpoint first_down {X : Type} (k : nat) (f : nat -> option X) : option X :=
  match k with
  | 0 => None
  | S k' =>
    match f k with
    | Some x => Some x
    | None => first_down k' f
    end
  end.

(** Match the pattern at the start of [s], backtracking as [re] does. *)
Fixpoint match_here (r : regex) (s : str) : option re_match :=
  match r with
  | [] => Some []
  | RChar c :: r' =>
    match s with
    | c' :: s' => if (c' =? c)%N then match_here r' s' else None
    | [] => None
    end
  | RAny :: r' =>
    match s with
    | c' :: s' => if (c' =? 10)%N then None else match_here r' s'
    | [] => None
    end
  | RDigits name :: r' =>
    first_down (digit_run s)
      (fun k => option_map (cons (name, firstn k s))
                           (match_here r' (skipn k s)))
  end.

(** [pattern.search(s)]: the match at the leftmost position that has one. *)
Fixpoint re_search (r : regex) (s : str) : option re_match :=
  match match_here r s with
  | Some m => Some m
  | None =>
    match s with
    | [] => None
    | _ :: s' => re_search r s'
    end
  end.

End Matching.

(* ===================================================================== *)
(** ** The surroundings of a run *)
(* ===================================================================== *)

(** A [pathlib.Path], by its string form. *)
Definition Path := str.

(** How a child process ended: it could not be started ([subprocess.run]
    raises an [OSError] such as [FileNotFoundError]), or it ran and left an
    exit status and its captured output. *)
Inductive proc_result :=
| NotStarted (reason : str)
| Exited (returncode : Z) (out err : bytes).

(** What a query of the file system gives: its answer, or the [OSError]
    that [Path.exists], [Path.is_dir] and [Path.is_file] let through (a
    name that is too long, a directory that may not be searched). *)
Inductive answer (A : Type) :=
| Answer (a : A)
| Refused (reason : str).
Arguments Answer {A} a.
Arguments Refused {A} reason.

(** What [Path.resolve()] gives: the resolved path, or the [RuntimeError]
    of a symbolic link loop. *)
Inductive resolution :=
| Resolved (p : Path)
| SymlinkLoop (reason : str).

Record World := {
  (** the decimal digits of the Unicode table and their values *)
  unicode_decimal : char -> option N;
  (** [sys.get_int_max_str_digits()], 0 for no limit *)
  int_max_str_digits : nat;
  (** [signal.Signals(n).name] where the platform has signal [n] *)
  signal_name : Z -> option str;
  (** the outcome of running a command *)
  process : list str -> proc_result;
  (** [Path(s)] *)
  Path_of : str -> Path;
  (** [Path.exists], [Path.is_dir], [Path.is_file] *)
  fs_exists : Path -> answer bool;
  fs_is_dir : Path -> answer bool;
  fs_is_file : Path -> answer bool;
  (** the entries anywhere beneath a directory, as a recursive glob
      enumerates them *)
  fs_walk : Path -> list Path;
  (** [Path.resolve] *)
  fs_resolve : Path -> resolution;
  (** the order of [Path] objects, [p < q] *)
  path_lt : Path -> Path -> bool
}.

(** The two colours the script prints in. *)
Inductive color := red | yellow.

(** An argument of [print]: plain text, or the result of
    [termcolor.colored(text, color)]. *)
Inductive pitem :=
| Plain (t : str)
| Colored (t : str) (c : color).

(** The recursive patterns [ "**/*" + suffix ]. *)
Inductive glob_pattern := Recursive (suffix : str).

Inductive event :=
| Spawn (argv : list str)            (* subprocess.run(argv, ...) *)
| Print (items : list pitem)         (* print(item, ...) *)
| Exists (p : Path)
| IsDir (p : Path)
| IsFile (p : Path)
| Glob (p : Path) (pat : glob_pattern)
| Resolve (p : Path).

Inductive exn :=
| OSError (reason : str)
| CalledProcessError (returncode : Z) (cmd : list str) (out err : bytes)
| UnicodeDecodeError
| ValueError
| IndexError
| RuntimeError (reason : str)
| AssertionError (msg : str).

(** ** Computations: a trace of events and a value or an exception *)

Inductive outcome (A : Type) :=
| Ok (a : A)
| Raise (e : exn).
Arguments Ok {A} a.
Arguments Raise {A} e.

Definition M (A : Type) : Type := list event * outcome A.

Definition ret {A} (a : A) : M A := ([], Ok a).

Definition bind {A B} (m : M A) (f : A -> M B) : M B :=
  match m with
  | (t, Ok a) => let '(t', r) := f a in (t ++ t', r)
  | (t, Raise e) => (t, Raise e)
  end.

Definition raise {A} (e : exn) : M A := ([], Raise e).
Definition emit (ev : event) : M unit := ([ev], Ok tt).
Definition lift {A} (o : outcome A) : M A := ([], o).

(** [try: m  except ...: handler], where [handler e = None] when no
    [except] clause takes [e]. *)
Definition try_except {A} (m : M A) (handler : exn -> option (M A)) : M A :=
  match m with
  | (t, Raise e) =>
    match handler e with
    | Some h => let '(t', r) := h in (t ++ t', r)
    | None => (t, Raise e)
    end
  | _ => m
  end.

Declare Scope run_scope.
Delimit Scope run_scope with run.
Notation "x <- m ;; k" := (bind m (fun x => k))
  (at level 61, m at next level, right associativity) : run_scope.
Notation "m ;; k" := (bind m (fun _ => k))
  (at level 61, right associativity) : run_scope.
Local Open Scope run_scope.

Definition trace {A} (m : M A) : list event := fst m.
Definition result {A} (m : M A) : outcome A := snd m.

(* ===================================================================== *)
(** ** Library calls of the script *)
(* ===================================================================== *)

(** [s.startswith(p)] and [s.endswith(p)] *)
Fixpoint starts_with (p s : str) : bool :=
  match p with
  | [] => true
  | c :: p' =>
    match s with
    | [] => false
    | d :: s' => (d =? c)%N && starts_with p' s'
    end
  end.

Definition ends_with (p s : str) : bool := starts_with (rev p) (rev s).

(** [repr] of a list of texts that need no escaping (printable ASCII
    without quotes or backslashes), which is what the command lines of the
    script are. *)
Definition list_repr (l : list str) : str :=
  lit "[" ++ join (lit ", ") (map (fun s => lit "'" ++ s ++ lit "'") l)
  ++ lit "]".

Record CompletedProcess := mkCompleted {
  cp_returncode : Z;
  cp_stdout : bytes;
  cp_stderr : bytes
}.

(** [bool(b)] for a bytes object *)
Definition nonempty (b : bytes) : bool :=
  match b with
  | [] => false
  | _ :: _ => true
  end.

Section Script.

Variable w : World.

(** [subprocess.run(cmd, stdout=PIPE, stderr=PIPE, check=True)] *)
Definition subprocess_run (cmd : list str) : M CompletedProcess :=
  emit (Spawn cmd) ;;
  match process w cmd with
  | NotStarted reason => raise (OSError reason)
  | Exited rc out err =>
    if (rc =? 0)%Z then ret (mkCompleted rc out err)
    else raise (CalledProcessError rc cmd out err)
  end.

(** [CalledProcessError.__str__] *)
Definition CalledProcessError_str (rc : Z) (cmd : list str) : str :=
  if (rc <? 0)%Z then
    match signal_name w (- rc) with
    | Some name =>
      lit "Command '" ++ list_repr cmd ++ lit "' died with <Signals."
      ++ name ++ lit ": " ++ int_str (- rc) ++ lit ">."
    | None =>
      lit "Command '" ++ list_repr cmd ++ lit "' died with unknown signal "
      ++ int_str (- rc) ++ lit "."
    end
  else
    lit "Command '" ++ list_repr cmd
    ++ lit "' returned non-zero exit status " ++ int_str rc ++ lit ".".

(** [b.decode('UTF-8')] *)
Definition decode (b : bytes) : M str :=
  match utf8_decode b with
  | Some t => ret t
  | None => raise UnicodeDecodeError
  end.

Definition print (items : list pitem) : M unit := emit (Print items).

(** [termcolor.cprint(text, color)] is [print(colored(text, color))]. *)
Definition cprint (text : str) (c : color) : M unit :=
  print [Colored text c].

Definition is_digit (c : char) : bool :=
  match unicode_decimal w c with
  | Some _ => true
  | None => false
  end.

(** The value of a text of decimal digits, most significant first. *)
Fixpoint digits_value (acc : N) (s : str) : option N :=
  match s with
  | [] => Some acc
  | c :: s' =>
    match unicode_decimal w c with
    | Some d => digits_value (acc * 10 + d) s'
    | None => None
    end
  end.

(** [int(s)] on what a [\d+] group captures, a non-empty text of decimal
    digits.  A text longer than the interpreter's digit limit is refused
    with [ValueError]; so is, here, any text that is not of that shape. *)
Definition py_int (s : str) : outcome Z :=
  if (0 <? int_max_str_digits w) && (int_max_str_digits w <? List.length s)
  then Raise ValueError
  else
    match s with
    | [] => Raise ValueError
    | _ :: _ =>
      match digits_value 0 s with
      | Some n => Ok (Z.of_N n)
      | None => Raise ValueError
      end
    end.

(** [search.group(name)] followed by [int] *)
Definition int_group (m : re_match) (name : string) : outcome Z :=
  match group m name with
  | Some s => py_int s
  | None => Raise IndexError
  end.

(** Lines 52-57: search the version text, assert that the pattern was
    found, build the [Version]. *)
Definition parse_version (text : str) : outcome Version :=
  match re_search is_digit CLANG_FORMAT_VER_REGEX text with
  | None => Raise (AssertionError (lit "Incorrect clang-format version output?"))
  | Some search =>
    match int_group search "major" with
    | Raise e => Raise e
    | Ok ma =>
      match int_group search "minor" with
      | Raise e => Raise e
      | Ok mi =>
        match int_group search "patch" with
        | Raise e => Raise e
        | Ok pa => Ok (mkVersion ma mi pa)
        end
      end
    end
  end.

(** *** File system queries *)

Definition ask {A} (a : answer A) : M A :=
  match a with
  | Answer x => ret x
  | Refused reason => raise (OSError reason)
  end.

Definition path_exists (p : Path) : M bool :=
  emit (Exists p) ;; ask (fs_exists w p).
Definition path_is_dir (p : Path) : M bool :=
  emit (IsDir p) ;; ask (fs_is_dir w p).
Definition path_is_file (p : Path) : M bool :=
  emit (IsFile p) ;; ask (fs_is_file w p).

(** [path.glob("**/*" + suffix)]: the entries beneath [p] whose name ends
    with the suffix, in enumeration order. *)
Definition glob_matches (p : Path) (pat : glob_pattern) : list Path :=
  match pat with
  | Recursive suffix => filter (ends_with suffix) (fs_walk w p)
  end.

Definition path_glob (p : Path) (pat : glob_pattern) : M (list Path) :=
  emit (Glob p pat) ;; ret (glob_matches p pat).

Definition path_resolve (p : Path) : M Path :=
  emit (Resolve p) ;;
  match fs_resolve w p with
  | Resolved q => ret q
  | SymlinkLoop reason => raise (RuntimeError reason)
  end.

(** [sorted(paths)]: a stable sort by [<] on paths. *)
Fixpoint insert_sorted (x : Path) (l : list Path) : list Path :=
  match l with
  | [] => [x]
  | y :: l' => if path_lt w y x then y :: insert_sorted x l' else x :: l
  end.

Fixpoint sorted (l : list Path) : list Path :=
  match l with
  | [] => []
  | x :: l' => insert_sorted x (sorted l')
  end.

(** *** Lines 43-50: the version query *)

Definition version_cmd : list str := [lit "clang-format"; lit "--version"].

Definition run_version_query : M (CompletedProcess + Z) :=
  try_except
    (clang_format_ver <- subprocess_run version_cmd ;;
     ret (inl clang_format_ver))
    (fun e =>
       match e with
       | CalledProcessError rc cmd _ _ =>
         Some (print [Plain (CalledProcessError_str rc cmd)] ;;
               ret (inr (-1)%Z))
       | _ => None
       end).

(** *** Lines 73-85: file discovery *)

(** The test of line 76, [not path.exists() or not (path.is_dir() or
    path.is_file())], with the short-circuit evaluation of [or]. *)
Definition is_invalid (path : Path) : M bool :=
  e <- path_exists path ;;
  if negb e then ret true
  else
    d <- path_is_dir path ;;
    df <- (if d then ret true else path_is_file path) ;;
    ret (negb df).

Definition warn_invalid (path : Path) : M unit :=
  print [Colored (lit "WARN:") yellow;
         Plain (path ++ lit " doesn't exist or is not file or dir, ignoring")].

(** One turn of the loop over [args.path]. *)
Definition discover_one (globbed_files : list Path) (input_str : str)
  : M (list Path) :=
  let path := Path_of w input_str in
  bad <- is_invalid path ;;
  if bad then
    warn_invalid path ;;
    ret globbed_files
  else
    d <- path_is_dir path ;;
    if d then
      cs <- path_glob path (Recursive (lit ".c")) ;;
      let globbed_files := globbed_files ++ sorted cs in
      hs <- path_glob path (Recursive (lit ".h")) ;;
      ret (globbed_files ++ sorted hs)
    else
      f <- path_is_file path ;;
      if f then ret (globbed_files ++ [path])
      else raise (AssertionError (lit "Something is off, should be a file?")).

Fixpoint discover (globbed_files : list Path) (paths : list str)
  : M (list Path) :=
  match paths with
  | [] => ret globbed_files
  | input_str :: rest =>
    globbed_files' <- discover_one globbed_files input_str ;;
    discover globbed_files' rest
  end.

(** *** Lines 87-105: the formatting run *)

(** [[str(f.resolve()) for f in globbed_files]] *)
Fixpoint resolve_all (files : list Path) : M (list str) :=
  match files with
  | [] => ret []
  | f :: files' =>
    r <- path_resolve f ;;
    rs <- resolve_all files' ;;
    ret (r :: rs)
  end.

Definition clang_format_cmd (resolved : list str) : str :=
  lit "clang-format -i --verbose " ++ join (lit " ") resolved.

Definition print_if_any (b : bytes) : M unit :=
  if nonempty b then
    t <- decode b ;;
    print [Plain (rstrip t)]
  else ret tt.

Definition run_format (globbed_files : list Path) : M Z :=
  resolved <- resolve_all globbed_files ;;
  r <- try_except
         (format_res <- subprocess_run (split (clang_format_cmd resolved)) ;;
          ret (inl format_res))
         (fun e =>
            match e with
            | CalledProcessError _ _ _ err =>
              Some (t <- decode err ;;
                    print [Plain t] ;;
                    ret (inr (-1)%Z))
            | _ => None
            end) ;;
  match r with
  | inr code => ret code
  | inl format_res =>
    print_if_any (cp_stdout format_res) ;;
    print_if_any (cp_stderr format_res) ;;
    ret 0%Z
  end.

(** *** Lines 58-70: the version check, once a version was parsed *)

Definition too_old_report (version : Version) : M unit :=
  cprint (lit "ERROR: clang-format version is too old!") red ;;
  cprint (lit "       Requires version " ++ Version_repr CLANG_FORMAT_VER_REQ
          ++ lit " but is " ++ Version_repr version) red.

Definition newer_note : list pitem :=
  [Colored
     (lit "NOTE: Major version used is greater than tested ("
      ++ int_str (major CLANG_FORMAT_VER_REQ)
      ++ lit ")," ++ lit " might behave differently.")
     yellow].

(** *** [main] (lines 32-105), on the values of the [path] arguments *)
Definition main (paths : list str) : M Z :=
  r <- run_version_query ;;
  match r with
  | inr code => ret code
  | inl clang_format_ver =>
    text <- decode (cp_stdout clang_format_ver) ;;
    version <- lift (parse_version text) ;;
    if Version_lt version CLANG_FORMAT_VER_REQ then
      too_old_report version ;;
      ret (-1)%Z
    else
      print [Plain (lit "Using clang-format version "
                    ++ Version_repr version)] ;;
      (if (major version >? major CLANG_FORMAT_VER_REQ)%Z
       then print newer_note
       else ret tt) ;;
      globbed_files <- discover [] paths ;;
      run_format globbed_files
  end.

(** The last two steps of [main] (lines 72-105). *)
Definition discover_and_format (paths : list str) : M Z :=
  globbed_files <- discover [] paths ;;
  run_format globbed_files.

End Script.

Arguments subprocess_run w cmd : simpl never.
Arguments utf8_decode b : simpl never.
Arguments lit s : simpl never.
Arguments split s : simpl never.
Arguments clang_format_cmd resolved : simpl never.
Arguments rstrip s : simpl never.
Arguments Version_repr v : simpl never.
Arguments Version_lt v1 v2 : simpl never.
Arguments parse_version w text : simpl never.

(* ===================================================================== *)
(** ** Sample surroundings *)
(* ===================================================================== *)

(** Sample worlds for concrete runs.  Their texts are ASCII, so the digit
    table only lists the ASCII digits; path arguments are given in normal
    form, so [Path] keeps them as they are; relative paths resolve against
    the working directory [/work]; paths are ordered as texts. *)

Definition ascii_decimal (c : char) : option N :=
  if ((48 <=? c) && (c <=? 57))%N then Some (c - 48)%N else None.

Definition posix_signal (n : Z) : option str :=
  if (n =? 9)%Z then Some (lit "SIGKILL")
  else if (n =? 11)%Z then Some (lit "SIGSEGV")
  else if (n =? 15)%Z then Some (lit "SIGTERM")
  else None.

Fixpoint str_ltb (a b : str) : bool :=
  match a, b with
  | _, [] => false
  | [], _ :: _ => true
  | x :: a', y :: b' => (x <? y)%N || ((x =? y)%N && str_ltb a' b')
  end.

Definition cmd_eqb (a b : list str) : bool :=
  if list_eq_dec (list_eq_dec N.eq_dec) a b then true else false.

Definition mem (p : Path) (l : list Path) : bool := existsb (str_eqb p) l.

Definition walk_of (dirs : list (Path * list Path)) (p : Path) : list Path :=
  match find (fun d => str_eqb (fst d) p) dirs with
  | Some d => snd d
  | None => []
  end.

(** A name with a component of more than 255 characters is refused by the
    file system. *)
Fixpoint component_too_long (n : nat) (p : Path) : bool :=
  match p with
  | [] => 255 <? n
  | c :: p' =>
    if (c =? 47)%N then (255 <? n) || component_too_long 0 p'
    else component_too_long (S n) p'
  end.

(** The text of the [OSError] for such a name. *)
Definition name_too_long (p : Path) : str :=
  lit "[Errno 36] File name too long: '" ++ p ++ lit "'".

Definition stat (p : Path) (b : bool) : answer bool :=
  if component_too_long 0 p then Refused (name_too_long p) else Answer b.

(** A world with the given outcome of the version query and of any other
    command, directories (each with the entries beneath it), regular files
    and entries that are neither. *)
Definition sample_world (ver fmt : proc_result)
  (dirs : list (Path * list Path)) (files special : list Path) : World :=
  {| unicode_decimal := ascii_decimal;
     int_max_str_digits := 4300;
     signal_name := posix_signal;
     process := fun cmd =>
       if cmd_eqb cmd [lit "clang-format"; lit "--version"] then ver else fmt;
     Path_of := fun s => s;
     fs_exists := fun p => stat p (mem p (map fst dirs ++ files ++ special));
     fs_is_dir := fun p => stat p (mem p (map fst dirs));
     fs_is_file := fun p => stat p (mem p files);
     fs_walk := walk_of dirs;
     fs_resolve := fun p =>
       Resolved (if starts_with (lit "/") p then p else lit "/work/" ++ p);
     path_lt := str_ltb |}.

Definition version_output (s : string) : proc_result :=
  Exited 0 (bytes_of s) [].

Definition silent_success : proc_result := Exited 0 [] [].

(** A directory [d] holding [a.c], [b.h] and [c.txt], and a regular file
    [weird.txt]. *)
Definition sample_dirs : list (Path * list Path) :=
  [(lit "d", [lit "d/c.txt"; lit "d/b.h"; lit "d/a.c"])].
Definition sample_files : list Path :=
  [lit "d/a.c"; lit "d/b.h"; lit "d/c.txt"; lit "weird.txt"].

Definition world_13_0_1 : World :=
  sample_world (version_output "clang-format version 13.0.1")
               silent_success sample_dirs sample_files [].

Definition world_version (s : string) : World :=
  sample_world (version_output s) silent_success sample_dirs sample_files [].

(** The version query exits with status 1 and [boom] on its error stream. *)
Definition world_query_fails : World :=
  sample_world (Exited 1 [] (bytes_of "boom"))
               silent_success sample_dirs sample_files [].

(** [clang-format] is not installed. *)
Definition world_not_installed : World :=
  sample_world (NotStarted (lit "No such file or directory: 'clang-format'"))
               silent_success sample_dirs sample_files [].

(** The formatting run exits with status 1 / with status 0 and output. *)
Definition world_format_fails : World :=
  sample_world (version_output "clang-format version 13.0.1")
               (Exited 1 [] (bytes_of "error: unknown key"))
               sample_dirs sample_files [].

Definition world_format_talks : World :=
  sample_world (version_output "clang-format version 14.0.6")
               (Exited 0 (bytes_of "Formatting d/a.c  ") (bytes_of "done "))
               sample_dirs sample_files [].

(** A world in which the given entries are symbolic links that lead back
    to themselves; each comes with the text of the error that resolving it
    raises. *)
Definition with_symlink_loops (w : World) (loops : list (Path * str))
  : World :=
  {| unicode_decimal := unicode_decimal w;
     int_max_str_digits := int_max_str_digits w;
     signal_name := signal_name w;
     process := process w;
     Path_of := Path_of w;
     fs_exists := fs_exists w;
     fs_is_dir := fs_is_dir w;
     fs_is_file := fs_is_file w;
     fs_walk := fs_walk w;
     fs_resolve := fun p =>
       match find (fun l => str_eqb (fst l) p) loops with
       | Some l => SymlinkLoop (snd l)
       | None => fs_resolve w p
       end;
     path_lt := path_lt w |}.

(** A directory [d] that holds, beside [a.c], a link [loop.c] to itself. *)
Definition world_symlink_loop : World :=
  with_symlink_loops
    (sample_world (version_output "clang-format version 13.0.1")
                  silent_success
                  [(lit "d", [lit "d/loop.c"; lit "d/a.c"])]
                  [lit "d/a.c"] [lit "d/loop.c"])
    [(lit "d/loop.c", lit "Symlink loop from '/work/d/loop.c'")].


(** A regular file whose name ends in a space, and one whose name has a
    space inside. *)
Definition world_spaces : World :=
  sample_world (version_output "clang-format version 13.0.1")
               silent_success [] [lit "x "; lit "my file.c"] [].

(* ===================================================================== *)
(** ** Notions used in the statements *)
(* ===================================================================== *)

(** Lexicographic order on triples: the first components decide, then the
    second, then the third. *)
Definition lex_lt (x y : Z * Z * Z) : Prop :=
  let '(a, b, c) := x in
  let '(d, e, f) := y in
  (a < d \/ (a = d /\ (b < e \/ (b = e /\ c < f))))%Z.

(** What a pattern matches, without an evaluation order: [matches r s m
    rest] when [r] matches a prefix of [s] leaving [rest], the groups
    capturing [m]. *)
Inductive matches (is_digit : char -> bool)
  : regex -> str -> re_match -> str -> Prop :=
| matches_nil s : matches is_digit [] s [] s
| matches_char c r s m rest :
    matches is_digit r s m rest ->
    matches is_digit (RChar c :: r) (c :: s) m rest
| matches_any c r s m rest :
    c <> 10%N ->
    matches is_digit r s m rest ->
    matches is_digit (RAny :: r) (c :: s) m rest
| matches_digits name d r s m rest :
    d <> [] ->
    forallb is_digit d = true ->
    matches is_digit r s m rest ->
    matches is_digit (RDigits name :: r) (d ++ s) ((name, d) :: m) rest.

Definition digits (is_digit : char -> bool) (d : str) : Prop :=
  d <> [] /\ forallb is_digit d = true.

(** The texts the version pattern is found in: the phrase, then three runs
    of digits with one character other than a line feed between them. *)
Definition version_shape (is_digit : char -> bool) (text : str) : Prop :=
  exists pre d1 c1 d2 c2 d3 post,
    text = pre ++ lit "clang-format version "
           ++ d1 ++ c1 :: d2 ++ c2 :: d3 ++ post
    /\ digits is_digit d1 /\ c1 <> 10%N
    /\ digits is_digit d2 /\ c2 <> 10%N
    /\ digits is_digit d3.

(** The texts that hold the phrase followed by three dot-separated
    integers. *)
Definition dotted_shape (is_digit : char -> bool) (text : str) : Prop :=
  exists pre d1 d2 d3 post,
    text = pre ++ lit "clang-format version "
           ++ d1 ++ lit "." ++ d2 ++ lit "." ++ d3 ++ post
    /\ digits is_digit d1 /\ digits is_digit d2 /\ digits is_digit d3.

(** The pattern with its two dots escaped, [\.]: it is found exactly in the
    texts of [dotted_shape]. *)
Definition DOTTED_VER_REGEX : regex :=
  re_lit "clang-format version "
  ++ [RDigits "major"; RChar 46%N; RDigits "minor"; RChar 46%N;
      RDigits "patch"].

(** Events of file discovery, and the commands a trace starts. *)
Definition is_discovery (e : event) : bool :=
  match e with
  | Exists _ | IsDir _ | IsFile _ | Glob _ _ | Resolve _ => true
  | Spawn _ | Print _ => false
  end.

Fixpoint spawned (t : list event) : list (list str) :=
  match t with
  | [] => []
  | Spawn argv :: t' => argv :: spawned t'
  | _ :: t' => spawned t'
  end.

Definition printed (t : list event) : list (list pitem) :=
  flat_map (fun e => match e with Print i => [i] | _ => [] end) t.

(** What the test of line 76 gives for a path: whether it rejects the
    path, or the error of the first query that fails. *)
Definition invalid (w : World) (p : Path) : answer bool :=
  match fs_exists w p with
  | Refused reason => Refused reason
  | Answer false => Answer true
  | Answer true =>
    match fs_is_dir w p with
    | Refused reason => Refused reason
    | Answer true => Answer false
    | Answer false =>
      match fs_is_file w p with
      | Refused reason => Refused reason
      | Answer f => Answer (negb f)
      end
    end
  end.

(** The queries line 76 makes about a path, in order. *)
Definition validity_queries (w : World) (p : Path) : list event :=
  Exists p ::
  match fs_exists w p with
  | Answer true =>
    IsDir p :: match fs_is_dir w p with
               | Answer false => [IsFile p]
               | _ => []
               end
  | _ => []
  end.

(** [p <= q] on paths, as [not (q < p)]. *)
Definition path_le (w : World) (p q : Path) : Prop := path_lt w q p = false.

(** [<] on paths is a strict order whose complement is transitive. *)
Definition path_order (w : World) : Prop :=
  (forall p q, path_lt w p q = true -> path_lt w q p = false)
  /\ (forall p q r, path_le w p q -> path_le w q r -> path_le w p r).

(** The first three arguments of the formatting command. *)
Definition base_argv : list str :=
  [lit "clang-format"; lit "-i"; lit "--verbose"].

(** The arguments of the formatting command for the resolved paths. *)
Definition format_argv (resolved : list str) : list str :=
  split (clang_format_cmd resolved).

Arguments format_argv resolved : simpl never.

(** [kept] is [text] without its trailing whitespace: what was cut is
    whitespace only, and [kept] does not end in whitespace. *)
Definition stripped (text kept : str) : Prop :=
  exists tail,
    text = kept ++ tail
    /\ forallb is_space tail = true
    /\ forall k c, kept = k ++ [c] -> is_space c = false.

(** What the run shows of a stream that decodes to [text]: nothing if the
    stream is empty, else the one line [kept]. *)
Definition shown (b : bytes) (kept : str) : list event :=
  if nonempty b then [Print [Plain kept]] else [].

(** A numeral of ASCII digits and its value; [None] for any other text. *)
Fixpoint read_digits (acc : N) (s : str) : option N :=
  match s with
  | [] => Some acc
  | c :: s' =>
    if ((48 <=? c) && (c <=? 57))%N
    then read_digits (acc * 10 + (c - 48)) s'
    else None
  end.

Definition read_decimal (s : str) : option N :=
  match s with
  | [] => None
  | _ :: _ => read_digits 0 s
  end.

(** The text [a.b.c] of three numerals that are read as the numbers of a
    version. *)
Definition names_version (text : str) (version : Version) : Prop :=
  exists a b c,
    text = a ++ lit "." ++ b ++ lit "." ++ c
    /\ option_map Z.of_N (read_decimal a) = Some (major version)
    /\ option_map Z.of_N (read_decimal b) = Some (minor version)
    /\ option_map Z.of_N (read_decimal c) = Some (patch version).

(** The note of lines 66-70, as it is printed. *)
Definition newer_note_printed : event :=
  Print [Colored (lit "NOTE: Major version used is greater than tested (13), might behave differently.") yellow].

(** What is printed once a version is accepted (lines 63-70). *)
Definition accepted_report (version : Version) : list event :=
  Print [Plain (lit "Using clang-format version " ++ Version_repr version)]
  :: (if (major version >? major CLANG_FORMAT_VER_REQ)%Z
      then [Print newer_note] else []).

(** The version query ran, exited with status 0, and [version] was parsed
    from its output. *)
Definition reports_version (w : World) (version : Version) : Prop :=
  exists out err text,
    process w (version_cmd) = Exited 0 out err
    /\ utf8_decode out = Some text
    /\ parse_version w text = Ok version.

(** The version query did not succeed. *)
Definition version_query_fails (w : World) : Prop :=
  match process w version_cmd with
  | NotStarted _ => True
  | Exited rc _ _ => rc <> 0%Z
  end.

(** The reading of "prints the captured error text and terminates with
    status -1, with no discovery and no formatting" for a failed version
    query; where the process never ran, any one printed text counts. *)
Definition failure_reported (w : World) (paths : list str) : Prop :=
  exists text,
    match process w version_cmd with
    | NotStarted _ => True
    | Exited _ _ err => utf8_decode err = Some text
    end
    /\ printed (trace (main w paths)) = [[Plain text]]
    /\ result (main w paths) = Ok (-1)%Z
    /\ filter is_discovery (trace (main w paths)) = []
    /\ spawned (trace (main w paths)) = [version_cmd].

(** The reading of "a resolved path containing whitespace is passed as
    multiple separate fragments": the command line built from it has more
    than one argument after the fixed three. *)
Definition passed_as_several (resolved : str) : Prop :=
  exists fragments,
    split (clang_format_cmd [resolved]) = base_argv ++ fragments
    /\ 2 <= List.length fragments.

(* ===================================================================== *)
(** ** Notions used in the further properties *)
(* ===================================================================== *)

(** What lines 77-78 print for an argument. *)
Definition warning_for (w : World) (input_str : str) : list pitem :=
  [Colored (lit "WARN:") yellow;
   Plain (Path_of w input_str
          ++ lit " doesn't exist or is not file or dir, ignoring")].

(** The version check lets the run go on: a version was parsed from the
    query and it is not below the required one. *)
Definition version_accepted (w : World) : Prop :=
  exists version,
    reports_version w version
    /\ Version_lt version CLANG_FORMAT_VER_REQ = false.

(** The ASCII digits are decimal digits of the Unicode table, with their
    values, and the dot is not a digit. *)
Definition ascii_digits (w : World) : Prop :=
  (forall d, (d < 10)%N -> unicode_decimal w (48 + d)%N = Some d)
  /\ unicode_decimal w 46%N = None.

(** A text is not longer than the digit limit of [int]. *)
Definition within_digit_limit (w : World) (d : str) : Prop :=
  int_max_str_digits w = 0 \/ List.length d <= int_max_str_digits w.

(** No run of decimal digits in the text is longer than the digit limit
    of [int]. *)
Definition digit_runs_within_limit (w : World) (text : str) : Prop :=
  forall before d after,
    text = before ++ d ++ after ->
    forallb (is_digit w) d = true ->
    within_digit_limit w d.



(** Two paths of which neither is below the other are the same path. *)
Definition path_total (w : World) : Prop :=
  forall p q, path_lt w p q = false -> path_lt w q p = false -> p = q.

(** The text does not start with a decimal digit. *)
Definition no_digit_ahead (w : World) (s : str) : Prop :=
  digit_run (is_digit w) s = 0.

(** [d] is a numeral that [int] reads as [n]: a non-empty text of decimal
    digits, within the digit limit, with value [n]. *)
Definition numeral (w : World) (d : str) (n : N) : Prop :=
  d <> [] /\ digits_value w 0 d = Some n /\ within_digit_limit w d.

(** [c] can stand between two numerals: it is no digit and no line feed. *)
Definition separator (w : World) (c : char) : Prop :=
  is_digit w c = false /\ c <> 10%N.

(** Bytes of ASCII text, and a world whose processes write nothing else. *)
Definition ascii_bytes (b : bytes) : Prop :=
  Forall (fun x => (Byte.to_N x < 128)%N) b.

Definition ascii_processes (w : World) : Prop :=
  forall cmd rc out err,
    process w cmd = Exited rc out err -> ascii_bytes out /\ ascii_bytes err.

(** The formatting command cannot be started, for instance because its
    argument list is too long. *)
Definition world_argv_too_long : World :=
  sample_world (version_output "clang-format version 13.0.1")
               (NotStarted (lit "Argument list too long: 'clang-format'"))
               sample_dirs sample_files [].

(** The version query writes a byte that is not UTF-8. *)
Definition world_binary_version : World :=
  sample_world (Exited 0 [Byte.xff] [])
               silent_success sample_dirs sample_files [].

(** The formatting run fails and writes a byte that is not UTF-8 to its
    error stream. *)
Definition world_binary_errors : World :=
  sample_world (version_output "clang-format version 13.0.1")
               (Exited 1 [] [Byte.xff]) sample_dirs sample_files [].


(** What the run does once the formatting process has ended (lines
    96-105). *)
Definition after_format (r : proc_result) : M Z :=
  match r with
  | NotStarted reason => raise (OSError reason)
  | Exited rc out err =>
    if (rc =? 0)%Z then
      print_if_any out ;; print_if_any err ;; ret 0%Z
    else
      t <- decode err ;; print [Plain t] ;; ret (-1)%Z
  end.

(** The events discovery can leave: file system queries and warnings. *)
Definition discovery_event (w : World) (e : event) : Prop :=
  match e with
  | Spawn _ => False
  | Print items => exists input_str, items = warning_for w input_str
  | _ => True
  end.

(* ===================================================================== *)
(** ** Splitting and joining *)
(* ===================================================================== *)

Lemma push_word_app (x : str) (l m : list str) :
  push_word x (l ++ m) = push_word x l ++ m.
Proof. destruct x; reflexivity. Qed.

Lemma split_go_space (a b : str) (c : char) :
  is_space c = true ->
  split_go (a ++ c :: b) = (fst (split_go a), snd (split_go a) ++ split b).
Proof.
  intros Hc. induction a as [|x a IH].
  - cbn [app split_go fst snd]. unfold split.
    destruct (split_go b) as [u us]. now rewrite Hc.
  - cbn [app split_go]. rewrite IH.
    destruct (split_go a) as [u us]. cbn [fst snd].
    destruct (is_space x); cbn [fst snd].
    + now rewrite push_word_app.
    + reflexivity.
Qed.

(** Splitting distributes over a whitespace character. *)
Lemma split_app_space (a b : str) (c : char) :
  is_space c = true -> split (a ++ c :: b) = split a ++ split b.
Proof.
  intros Hc. unfold split at 1 2. rewrite (split_go_space a b c Hc).
  destruct (split_go a) as [u us]. cbn [fst snd].
  apply push_word_app.
Qed.

Lemma split_go_word (x : str) :
  has_space x = false -> split_go x = (x, []).
Proof.
  induction x as [|c x IH]; intros H; [reflexivity|].
  cbn in H. apply orb_false_iff in H as [Hc Hx].
  cbn [split_go]. rewrite (IH Hx), Hc. reflexivity.
Qed.

(** A non-empty text without whitespace is its own single word. *)
Lemma split_word (x : str) :
  x <> [] -> has_space x = false -> split x = [x].
Proof.
  intros Hne H. unfold split. rewrite (split_go_word x H).
  destruct x; [contradiction | reflexivity].
Qed.

Lemma split_join (l : list str) :
  split (join (lit " ") l) = flat_map split l.
Proof.
  induction l as [|x l IH]; [reflexivity|].
  destruct l as [|y l].
  - cbn [join flat_map]. now rewrite app_nil_r.
  - change (join (lit " ") (x :: y :: l))
      with (x ++ 32%N :: join (lit " ") (y :: l)).
    rewrite split_app_space by reflexivity.
    now rewrite IH.
Qed.

(** The command line of the formatting run, split into arguments. *)
Lemma split_clang_format_cmd (resolved : list str) :
  split (clang_format_cmd resolved) = base_argv ++ flat_map split resolved.
Proof.
  unfold clang_format_cmd.
  change (lit "clang-format -i --verbose ")
    with (lit "clang-format -i --verbose" ++ [32%N]).
  rewrite <- app_assoc. cbn [app].
  rewrite split_app_space by reflexivity.
  now rewrite split_join.
Qed.

Lemma flat_map_split_words (l : list str) :
  Forall (fun p => p <> [] /\ has_space p = false) l ->
  flat_map split l = l.
Proof.
  induction 1 as [|p l [Hne Hsp] _ IH]; [reflexivity|].
  cbn [flat_map]. rewrite (split_word p Hne Hsp), IH. reflexivity.
Qed.

Lemma split_go_clean (s : str) :
  has_space (fst (split_go s)) = false
  /\ Forall (fun f => f <> [] /\ has_space f = false) (snd (split_go s)).
Proof.
  induction s as [|c s [IH1 IH2]]; [now split|].
  cbn [split_go]. destruct (split_go s) as [u us]. cbn [fst snd] in *.
  destruct (is_space c) eqn:Hc; cbn [fst snd].
  - split; [reflexivity|].
    destruct u; [exact IH2|]. cbn [push_word].
    constructor; [|exact IH2]. split; [discriminate | exact IH1].
  - split; [|exact IH2]. cbn. now rewrite Hc.
Qed.

(** Every word [split] returns is non-empty and free of whitespace. *)
Lemma split_clean (s : str) :
  Forall (fun f => f <> [] /\ has_space f = false) (split s).
Proof.
  unfold split. pose proof (split_go_clean s) as [H1 H2].
  destruct (split_go s) as [u us]. cbn [fst snd] in *.
  destruct u; [exact H2|]. cbn [push_word].
  constructor; [|exact H2]. split; [discriminate | exact H1].
Qed.

Lemma split_not_self (p : str) :
  has_space p = true -> ~ In p (split p).
Proof.
  intros Hsp Hin.
  pose proof (split_clean p) as Hc. rewrite Forall_forall in Hc.
  destruct (Hc p Hin) as [_ H]. congruence.
Qed.

(** A text with a character that is not whitespace has a word. *)
Lemma split_nonblank (s : str) :
  existsb (fun c => negb (is_space c)) s = true -> split s <> [].
Proof.
  induction s as [|c s IH]; [discriminate|].
  cbn [existsb]. intros H. unfold split in *. cbn [split_go].
  destruct (split_go s) as [u us].
  destruct (is_space c) eqn:Hc; cbn [negb orb] in H.
  - cbn [push_word]. apply IH, H.
  - discriminate.
Qed.

(* ===================================================================== *)
(** ** Sorting paths *)
(* ===================================================================== *)

Section Sorting.

Variable w : World.
Hypothesis order : path_order w.

Lemma insert_sorted_perm (x : Path) (l : list Path) :
  Permutation (x :: l) (insert_sorted w x l).
Proof.
  induction l as [|y l IH]; cbn [insert_sorted]; [reflexivity|].
  destruct (path_lt w y x); [|reflexivity].
  rewrite perm_swap. now constructor.
Qed.

Lemma sorted_perm (l : list Path) : Permutation l (sorted w l).
Proof.
  induction l as [|x l IH]; cbn [sorted]; [constructor|].
  rewrite <- insert_sorted_perm. now constructor.
Qed.


Lemma insert_sorted_strongly (x : Path) (l : list Path) :
  StronglySorted (path_le w) l ->
  StronglySorted (path_le w) (insert_sorted w x l).
Proof.
  destruct order as [asym trans].
  induction 1 as [|y l Hs IH Hy]; cbn [insert_sorted].
  - repeat constructor.
  - destruct (path_lt w y x) eqn:Hyx.
    + constructor; [exact IH|].
      rewrite Forall_forall in *. intros z Hz.
      apply (Permutation_in _ (Permutation_sym (insert_sorted_perm x l)))
        in Hz.
      destruct Hz as [<- | Hz]; [|now apply Hy].
      unfold path_le. now apply asym.
    + constructor; [now constructor|].
      constructor; [exact Hyx|].
      rewrite Forall_forall in *. intros z Hz.
      apply (trans x y z); [exact Hyx | now apply Hy].
Qed.

(** [sorted] returns its argument in ascending order. *)
Lemma sorted_strongly (l : list Path) :
  StronglySorted (path_le w) (sorted w l).
Proof.
  induction l as [|x l IH]; cbn [sorted]; [constructor|].
  now apply insert_sorted_strongly.
Qed.

End Sorting.

(** The order of the sample worlds. *)
Lemma str_ltb_asym (p q : str) : str_ltb p q = true -> str_ltb q p = false.
Proof.
  revert q. induction p as [|x p IH]; intros [|y q]; cbn; try easy.
  rewrite orb_true_iff, andb_true_iff, orb_false_iff, andb_false_iff.
  rewrite !N.ltb_lt, !N.eqb_eq, N.ltb_ge, N.eqb_neq.
  intros [H | [-> H]].
  - split; [lia | left; lia].
  - split; [lia | right; now apply IH].
Qed.

Lemma str_ltb_trans (p q r : str) :
  str_ltb q p = false -> str_ltb r q = false -> str_ltb r p = false.
Proof.
  revert q r. induction p as [|x p IH]; intros [|y q] [|z r]; cbn;
    try easy.
  rewrite !orb_false_iff, !andb_false_iff.
  rewrite !N.ltb_ge, !N.eqb_neq.
  intros [H1 H2] [H3 H4]. split; [lia|].
  destruct (N.eq_dec z x) as [->|Hzx]; [|now left].
  right. assert (y = x) by lia. subst y.
  apply (IH q r).
  - destruct H2 as [H2|H2]; [congruence | exact H2].
  - destruct H4 as [H4|H4]; [congruence | exact H4].
Qed.

Lemma sample_path_order ver fmt dirs files special :
  path_order (sample_world ver fmt dirs files special).
Proof.
  split; cbn.
  - apply str_ltb_asym.
  - intros p q r. unfold path_le. cbn. apply str_ltb_trans.
Qed.

(* ===================================================================== *)
(** ** Running computations *)
(* ===================================================================== *)

Lemma bind_trace {A B} (m : M A) (f : A -> M B) (a : A) :
  result m = Ok a ->
  bind m f = (trace m ++ trace (f a), result (f a)).
Proof.
  destruct m as [t r]. cbn. intros ->. now destruct (f a).
Qed.

Lemma bind_raise {A B} (m : M A) (f : A -> M B) (e : exn) :
  result m = Raise e -> bind m f = (trace m, Raise e).
Proof. destruct m as [t r]. cbn. now intros ->. Qed.

Lemma bind_ok {A B} (t : list event) (a : A) (f : A -> M B) :
  bind (t, Ok a) f = (t ++ trace (f a), result (f a)).
Proof. cbn. now destruct (f a). Qed.

Lemma M_eta {A} (m : M A) : m = (trace m, result m).
Proof. now destruct m. Qed.

(* ===================================================================== *)
(** ** Pattern matching *)
(* ===================================================================== *)

Section MatchingFacts.

Variable is_digit : char -> bool.

Lemma first_down_sound {X} (k : nat) (f : nat -> option X) (x : X) :
  first_down k f = Some x -> exists j, 1 <= j <= k /\ f j = Some x.
Proof.
  induction k as [|k IH]; cbn [first_down]; [discriminate|].
  destruct (f (S k)) as [y|] eqn:Hf.
  - intros [= ->]. exists (S k). split; [lia | exact Hf].
  - intros H. destruct (IH H) as (j & Hj & Hx).
    exists j. split; [lia | exact Hx].
Qed.

Lemma first_down_complete {X} (k j : nat) (f : nat -> option X) (x : X) :
  1 <= j <= k -> f j = Some x -> exists y, first_down k f = Some y.
Proof.
  induction k as [|k IH]; intros Hj Hf; [lia|].
  cbn [first_down]. destruct (f (S k)) as [y|] eqn:Hk; [now exists y|].
  apply IH; [|exact Hf].
  destruct (Nat.eq_dec j (S k)) as [->|]; [congruence | lia].
Qed.

Lemma digit_run_firstn (k : nat) (s : str) :
  k <= digit_run is_digit s -> forallb is_digit (firstn k s) = true.
Proof.
  revert k. induction s as [|c s IH]; intros [|k] Hk; try reflexivity.
  cbn [digit_run] in Hk. cbn [firstn forallb].
  destruct (is_digit c); [|lia]. apply IH. lia.
Qed.

Lemma digit_run_le (s : str) : digit_run is_digit s <= List.length s.
Proof.
  induction s as [|c s IH]; cbn; [lia|]. destruct (is_digit c); lia.
Qed.

Lemma digit_run_app (d s : str) :
  forallb is_digit d = true -> List.length d <= digit_run is_digit (d ++ s).
Proof.
  induction d as [|c d IH]; cbn [forallb app digit_run List.length];
    [lia|].
  intros H. apply andb_true_iff in H as [-> Hd]. specialize (IH Hd). lia.
Qed.

(** The matcher only reports matches ... *)
Lemma match_here_sound (r : regex) (s : str) (m : re_match) :
  match_here is_digit r s = Some m ->
  exists rest, matches is_digit r s m rest.
Proof.
  revert s m. induction r as [|[c| |name] r IH]; intros s m; cbn [match_here].
  - intros [= <-]. exists s. constructor.
  - destruct s as [|c' s]; [discriminate|].
    destruct (N.eqb_spec c' c) as [->|]; [|discriminate].
    intros H. destruct (IH _ _ H) as [rest Hm].
    exists rest. now constructor.
  - destruct s as [|c' s]; [discriminate|].
    destruct (N.eqb_spec c' 10) as [|Hne]; [discriminate|].
    intros H. destruct (IH _ _ H) as [rest Hm].
    exists rest. now constructor.
  - intros H. apply first_down_sound in H as (j & Hj & H).
    destruct (match_here is_digit r (skipn j s)) as [m0|] eqn:Hr;
      [|discriminate].
    injection H as <-.
    destruct (IH _ _ Hr) as [rest Hm]. exists rest.
    rewrite <- (firstn_skipn j s) at 1.
    constructor; [| now apply digit_run_firstn | exact Hm].
    intros Hnil. apply (f_equal (@List.length _)) in Hnil.
    rewrite length_firstn in Hnil. cbn in Hnil.
    pose proof (digit_run_le s). lia.
Qed.

(** ... and finds one whenever there is one. *)
Lemma match_here_complete (r : regex) (s rest : str) (m : re_match) :
  matches is_digit r s m rest ->
  exists m', match_here is_digit r s = Some m'.
Proof.
  induction 1 as [s | c r s m rest _ [m' IH] | c r s m rest Hc _ [m' IH]
                 | name d r s m rest Hne Hd _ [m' IH]]; cbn [match_here].
  - now exists [].
  - rewrite N.eqb_refl. now exists m'.
  - apply N.eqb_neq in Hc. rewrite Hc. now exists m'.
  - apply (first_down_complete _ (List.length d) _ ((name, d) :: m')).
    + split; [|now apply digit_run_app].
      destruct d; [contradiction | cbn; lia].
    + rewrite firstn_app, Nat.sub_diag, firstn_all. cbn [firstn].
      rewrite app_nil_r.
      rewrite skipn_app, Nat.sub_diag, skipn_all. cbn [skipn app].
      now rewrite IH.
Qed.

Lemma re_search_sound (r : regex) (s : str) (m : re_match) :
  re_search is_digit r s = Some m ->
  exists pre s' rest, s = pre ++ s' /\ matches is_digit r s' m rest.
Proof.
  induction s as [|c s IH]; cbn [re_search].
  - destruct (match_here is_digit r []) as [m0|] eqn:Hm; [|discriminate].
    intros [= <-]. apply match_here_sound in Hm as [rest Hm].
    now exists [], [], rest.
  - destruct (match_here is_digit r (c :: s)) as [m0|] eqn:Hm.
    + intros [= <-]. apply match_here_sound in Hm as [rest Hm].
      now exists [], (c :: s), rest.
    + intros H. destruct (IH H) as (pre & s' & rest & -> & Hr).
      now exists (c :: pre), s', rest.
Qed.

Lemma re_search_complete (r : regex) (pre s rest : str) (m : re_match) :
  matches is_digit r s m rest ->
  exists m', re_search is_digit r (pre ++ s) = Some m'.
Proof.
  intros H. induction pre as [|c pre [m' IH]].
  - apply match_here_complete in H as [m' H]. exists m'.
    cbn [app]. destruct s; cbn [re_search]; now rewrite H.
  - cbn [app re_search].
    destruct (match_here is_digit r (c :: pre ++ s)) as [m0|];
      [now exists m0 | now exists m'].
Qed.

(** A literal prefix of a pattern matches itself. *)
Lemma matches_lit (l : str) (r : regex) (s rest : str) (m : re_match) :
  matches is_digit (map RChar l ++ r) s m rest
  <-> exists s', s = l ++ s' /\ matches is_digit r s' m rest.
Proof.
  revert s. induction l as [|c l IH]; intros s; cbn [map app].
  - split; [intros H; now exists s | now intros (s' & -> & H)].
  - split.
    + intros H. inversion H as [| c0 r0 s0 m0 rest0 Hm | |]; subst.
      apply IH in Hm as (s' & -> & Hm). now exists s'.
    + intros (s' & -> & H). cbn [app]. constructor. apply IH. now exists s'.
Qed.

Lemma matches_version_regex (s rest : str) (m : re_match) :
  matches is_digit CLANG_FORMAT_VER_REGEX s m rest
  <-> exists d1 c1 d2 c2 d3,
        s = lit "clang-format version " ++ d1 ++ c1 :: d2 ++ c2 :: d3 ++ rest
        /\ m = [("major"%string, d1); ("minor"%string, d2);
                ("patch"%string, d3)]
        /\ digits is_digit d1 /\ c1 <> 10%N
        /\ digits is_digit d2 /\ c2 <> 10%N
        /\ digits is_digit d3.
Proof.
  unfold CLANG_FORMAT_VER_REGEX, re_lit. rewrite matches_lit. split.
  - intros (s' & -> & H).
    inversion H as [| | | n1 d1 r1 s1 m1 rest1 N1 D1 H1]; subst; clear H.
    inversion H1 as [| | c1 r2 s2 m2 rest2 C1 H2 |]; subst; clear H1.
    inversion H2 as [| | | n3 d2 r3 s3 m3 rest3 N2 D2 H3]; subst; clear H2.
    inversion H3 as [| | c2 r4 s4 m4 rest4 C2 H4 |]; subst; clear H3.
    inversion H4 as [| | | n5 d3 r5 s5 m5 rest5 N3 D3 H5]; subst; clear H4.
    inversion H5; subst; clear H5.
    exists d1, c1, d2, c2, d3. unfold digits. repeat split; assumption.
  - intros (d1 & c1 & d2 & c2 & d3 & -> & -> & [N1 D1] & C1 & [N2 D2] & C2
            & [N3 D3]).
    eexists; split; [reflexivity|].
    constructor; [assumption ..|]. constructor; [assumption|].
    constructor; [assumption ..|]. constructor; [assumption|].
    constructor; [assumption ..|]. constructor.
Qed.

Lemma matches_dotted_regex (s rest : str) (m : re_match) :
  matches is_digit DOTTED_VER_REGEX s m rest
  <-> exists d1 d2 d3,
        s = lit "clang-format version " ++ d1 ++ lit "." ++ d2
            ++ lit "." ++ d3 ++ rest
        /\ m = [("major"%string, d1); ("minor"%string, d2);
                ("patch"%string, d3)]
        /\ digits is_digit d1 /\ digits is_digit d2 /\ digits is_digit d3.
Proof.
  unfold DOTTED_VER_REGEX, re_lit. rewrite matches_lit. split.
  - intros (s' & -> & H).
    inversion H as [| | | n1 d1 r1 s1 m1 rest1 N1 D1 H1]; subst; clear H.
    inversion H1 as [| c1 r2 s2 m2 rest2 H2 | |]; subst; clear H1.
    inversion H2 as [| | | n3 d2 r3 s3 m3 rest3 N2 D2 H3]; subst; clear H2.
    inversion H3 as [| c2 r4 s4 m4 rest4 H4 | |]; subst; clear H3.
    inversion H4 as [| | | n5 d3 r5 s5 m5 rest5 N3 D3 H5]; subst; clear H4.
    inversion H5; subst; clear H5.
    exists d1, d2, d3. unfold digits. repeat split; assumption.
  - intros (d1 & d2 & d3 & -> & -> & [N1 D1] & [N2 D2] & [N3 D3]).
    eexists; split; [reflexivity|].
    constructor; [assumption ..|]. cbn [lit app]. constructor.
    constructor; [assumption ..|]. constructor.
    constructor; [assumption ..|]. constructor.
Qed.

(** The version pattern is found exactly in the texts of
    [version_shape]. *)
Lemma search_version_shape (text : str) :
  (exists m, re_search is_digit CLANG_FORMAT_VER_REGEX text = Some m)
  <-> version_shape is_digit text.
Proof.
  split.
  - intros [m H]. apply re_search_sound in H as (pre & s & rest & -> & H).
    apply matches_version_regex in H
      as (d1 & c1 & d2 & c2 & d3 & -> & _ & H).
    now exists pre, d1, c1, d2, c2, d3, rest.
  - intros (pre & d1 & c1 & d2 & c2 & d3 & post & -> & H).
    eapply re_search_complete, matches_version_regex.
    exists d1, c1, d2, c2, d3. split; [reflexivity|]. split; [reflexivity|].
    exact H.
Qed.

(** The pattern with escaped dots is found exactly in the texts of
    [dotted_shape]. *)
Lemma search_dotted_shape (text : str) :
  (exists m, re_search is_digit DOTTED_VER_REGEX text = Some m)
  <-> dotted_shape is_digit text.
Proof.
  split.
  - intros [m H]. apply re_search_sound in H as (pre & s & rest & -> & H).
    apply matches_dotted_regex in H as (d1 & d2 & d3 & -> & _ & H).
    now exists pre, d1, d2, d3, rest.
  - intros (pre & d1 & d2 & d3 & post & -> & H).
    eapply re_search_complete, matches_dotted_regex.
    exists d1, d2, d3. split; [reflexivity|]. split; [reflexivity|].
    exact H.
Qed.

(** Dot-separated versions are among the texts the pattern accepts. *)
Lemma dotted_shape_version_shape (text : str) :
  dotted_shape is_digit text -> version_shape is_digit text.
Proof.
  intros (pre & d1 & d2 & d3 & post & -> & H1 & H2 & H3).
  exists pre, d1, 46%N, d2, 46%N, d3, post.
  repeat split; try apply H1; try apply H2; try apply H3; try discriminate.
Qed.

End MatchingFacts.

(* ===================================================================== *)
(** ** Parsing the version *)
(* ===================================================================== *)

Section Parsing.

Variable w : World.

Lemma digits_value_total (d : str) (acc : N) :
  forallb (is_digit w) d = true -> exists n, digits_value w acc d = Some n.
Proof.
  revert acc. induction d as [|c d IH]; intros acc; cbn [forallb digits_value].
  - now exists acc.
  - unfold is_digit at 1. destruct (unicode_decimal w c); [|discriminate].
    intros H. now apply IH.
Qed.

(** On a run of digits, [int] returns a number unless the run is longer
    than the digit limit. *)
Lemma py_int_digits (d : str) :
  digits (is_digit w) d ->
  (exists n, py_int w d = Ok n) \/ py_int w d = Raise ValueError.
Proof.
  intros [Hne Hd]. unfold py_int.
  destruct ((0 <? int_max_str_digits w)
            && (int_max_str_digits w <? List.length d)); [now right|].
  destruct d as [|c d]; [contradiction|].
  destruct (digits_value_total (c :: d) 0 Hd) as [n ->].
  left. now exists (Z.of_N n).
Qed.

Lemma parse_version_found (text : str) (m : re_match) :
  re_search (is_digit w) CLANG_FORMAT_VER_REGEX text = Some m ->
  (exists v, parse_version w text = Ok v)
  \/ parse_version w text = Raise ValueError.
Proof.
  intros H. unfold parse_version. rewrite H.
  apply re_search_sound in H as (pre & s & rest & _ & H).
  apply matches_version_regex in H
    as (d1 & c1 & d2 & c2 & d3 & _ & -> & D1 & _ & D2 & _ & D3).
  unfold int_group. cbn [group String.eqb Ascii.eqb Bool.eqb].
  destruct (py_int_digits d1 D1) as [[n1 ->] | ->]; [|now right].
  destruct (py_int_digits d2 D2) as [[n2 ->] | ->]; [|now right].
  destruct (py_int_digits d3 D3) as [[n3 ->] | ->]; [|now right].
  left. now eexists.
Qed.

(** The assertion of line 53 fails exactly on the texts in which the
    pattern is not found. *)
Lemma parse_version_assertion (text : str) :
  parse_version w text
  = Raise (AssertionError (lit "Incorrect clang-format version output?"))
  <-> ~ version_shape (is_digit w) text.
Proof.
  rewrite <- search_version_shape.
  destruct (re_search (is_digit w) CLANG_FORMAT_VER_REGEX text) as [m|] eqn:H.
  - split.
    + intros Ha.
      destruct (parse_version_found text m H) as [[v Hv] | Hv]; congruence.
    + intros Hn. exfalso. apply Hn. now exists m.
  - unfold parse_version. rewrite H. split; [|reflexivity].
    intros _ [m Hm]. discriminate.
Qed.

(** A text of the expected shape passes the assertion. *)
Lemma parse_version_shape (text : str) :
  version_shape (is_digit w) text ->
  (exists v, parse_version w text = Ok v)
  \/ parse_version w text = Raise ValueError.
Proof.
  intros H. apply search_version_shape in H as [m H].
  now apply parse_version_found with m.
Qed.

End Parsing.

(* ===================================================================== *)
(** ** Reading a version *)
(* ===================================================================== *)

Section Reading.

Variable is_digit : char -> bool.

Lemma re_search_skip (c : char) (r : regex) (pre s : str) :
  ~ In c pre ->
  re_search is_digit (RChar c :: r) (pre ++ s)
  = re_search is_digit (RChar c :: r) s.
Proof.
  induction pre as [|x pre IH]; intros Hc; [reflexivity|].
  cbn [app re_search match_here].
  destruct (N.eqb_spec x c) as [-> | _]; [exfalso; apply Hc; now left|].
  apply IH. intros H. apply Hc. now right.
Qed.

Lemma re_search_here (r : regex) (s : str) (m : re_match) :
  match_here is_digit r s = Some m -> re_search is_digit r s = Some m.
Proof. intros H. destruct s; cbn [re_search]; now rewrite H. Qed.

Lemma match_here_lit (l : str) (r : regex) (s : str) :
  match_here is_digit (map RChar l ++ r) (l ++ s) = match_here is_digit r s.
Proof.
  induction l as [|c l IH]; [reflexivity|].
  cbn [map app match_here]. now rewrite N.eqb_refl.
Qed.

Lemma digit_run_exact (d rest : str) :
  forallb is_digit d = true ->
  digit_run is_digit rest = 0 ->
  digit_run is_digit (d ++ rest) = List.length d.
Proof.
  intros Hd Hr. induction d as [|c d IH]; [exact Hr|].
  cbn [forallb] in Hd. apply andb_true_iff in Hd as [Hc Hd].
  cbn [app digit_run List.length]. now rewrite Hc, IH.
Qed.

(** A greedy group takes the whole run of digits when what follows the
    run matches the rest of the pattern. *)
Lemma match_here_digits (name : string) (r : regex) (d rest : str)
    (m : re_match) :
  d <> [] ->
  forallb is_digit d = true ->
  digit_run is_digit rest = 0 ->
  match_here is_digit r rest = Some m ->
  match_here is_digit (RDigits name :: r) (d ++ rest) = Some ((name, d) :: m).
Proof.
  intros Hne Hd Hr Hm. cbn [match_here].
  rewrite (digit_run_exact d rest Hd Hr).
  destruct d as [|c d]; [contradiction|].
  cbn [List.length first_down].
  change (S (List.length d)) with (List.length (c :: d)).
  rewrite firstn_app, Nat.sub_diag, firstn_all.
  rewrite skipn_app, Nat.sub_diag, skipn_all.
  cbn [firstn skipn app]. rewrite app_nil_r, Hm. reflexivity.
Qed.

Lemma match_here_any (r : regex) (c : char) (s : str) :
  c <> 10%N ->
  match_here is_digit (RAny :: r) (c :: s) = match_here is_digit r s.
Proof.
  intros Hc. cbn [match_here]. apply N.eqb_neq in Hc. now rewrite Hc.
Qed.

End Reading.

Section Numerals.

Variable w : World.

Lemma digits_value_digits (d : str) (acc n : N) :
  digits_value w acc d = Some n -> forallb (is_digit w) d = true.
Proof.
  revert acc. induction d as [|c d IH]; intros acc; [reflexivity|].
  cbn [digits_value forallb]. unfold is_digit at 1.
  destruct (unicode_decimal w c); [|discriminate].
  intros H. now rewrite (IH _ H).
Qed.

Lemma py_int_numeral (d : str) (n : N) :
  numeral w d n -> py_int w d = Ok (Z.of_N n).
Proof.
  intros (Hne & Hv & Hlim). unfold py_int.
  assert (Hc : (0 <? int_max_str_digits w)
               && (int_max_str_digits w <? List.length d) = false).
  { destruct Hlim as [-> | Hle]; [reflexivity|].
    apply andb_false_iff. right. apply Nat.ltb_ge. exact Hle. }
  rewrite Hc. destruct d; [contradiction|]. now rewrite Hv.
Qed.

(** The groups of the pattern on an output of the usual form. *)
Lemma search_usual_output (pre d1 d2 d3 post : str) (c1 c2 : char)
    (n1 n2 n3 : N) :
  ~ In 99%N pre ->
  numeral w d1 n1 -> separator w c1 ->
  numeral w d2 n2 -> separator w c2 ->
  numeral w d3 n3 -> no_digit_ahead w post ->
  re_search (is_digit w) CLANG_FORMAT_VER_REGEX
    (pre ++ lit "clang-format version "
         ++ d1 ++ c1 :: d2 ++ c2 :: d3 ++ post)
  = Some [("major"%string, d1); ("minor"%string, d2); ("patch"%string, d3)].
Proof.
  intros Hpre (N1 & V1 & _) [S1 L1] (N2 & V2 & _) [S2 L2] (N3 & V3 & _) Hpost.
  apply digits_value_digits in V1, V2, V3.
  change CLANG_FORMAT_VER_REGEX
    with (RChar 99%N
            :: map RChar (lit "lang-format version ")
            ++ [RDigits "major"; RAny; RDigits "minor"; RAny;
                RDigits "patch"]).
  rewrite re_search_skip by exact Hpre.
  apply re_search_here.
  change (lit "clang-format version ")
    with (99%N :: lit "lang-format version ").
  cbn [app match_here]. rewrite N.eqb_refl, match_here_lit.
  apply match_here_digits; try assumption.
  { cbn [digit_run]. now rewrite S1. }
  rewrite match_here_any by exact L1.
  apply match_here_digits; try assumption.
  { cbn [digit_run]. now rewrite S2. }
  rewrite match_here_any by exact L2.
  now apply match_here_digits.
Qed.

End Numerals.

Lemma parse_usual_output (w : World) (pre d1 d2 d3 post : str)
    (c1 c2 : char) (n1 n2 n3 : N) :
  ~ In 99%N pre ->
  numeral w d1 n1 -> separator w c1 ->
  numeral w d2 n2 -> separator w c2 ->
  numeral w d3 n3 -> no_digit_ahead w post ->
  parse_version w (pre ++ lit "clang-format version "
                       ++ d1 ++ c1 :: d2 ++ c2 :: d3 ++ post)
  = Ok (mkVersion (Z.of_N n1) (Z.of_N n2) (Z.of_N n3)).
Proof.
  intros Hpre H1 S1 H2 S2 H3 Hpost. unfold parse_version.
  rewrite (search_usual_output w pre d1 d2 d3 post c1 c2 n1 n2 n3)
    by assumption.
  unfold int_group. cbn [group String.eqb Ascii.eqb Bool.eqb].
  now rewrite (py_int_numeral w d1 n1 H1), (py_int_numeral w d2 n2 H2),
    (py_int_numeral w d3 n3 H3).
Qed.

(** On an output of the usual form, [Version] holds the three numbers as
    written: when the phrase is followed by three numerals with a
    separator between them, no digit follows the third, and no letter [c]
    comes before the phrase, the version parsed is made of the values of
    the three numerals. *)
Theorem version_read_from_output (w : World) (pre d1 d2 d3 post : str)
    (c1 c2 : char) (n1 n2 n3 : N) :
  ~ In 99%N pre ->
  numeral w d1 n1 -> separator w c1 ->
  numeral w d2 n2 -> separator w c2 ->
  numeral w d3 n3 -> no_digit_ahead w post ->
  parse_version w (pre ++ lit "clang-format version "
                       ++ d1 ++ c1 :: d2 ++ c2 :: d3 ++ post)
  = Ok (mkVersion (Z.of_N n1) (Z.of_N n2) (Z.of_N n3)).
Proof. exact (parse_usual_output w pre d1 d2 d3 post c1 c2 n1 n2 n3). Qed.

Lemma version_read_from_output_witness :
  numeral world_13_0_1 (lit "14") 14
  /\ separator world_13_0_1 46%N
  /\ no_digit_ahead world_13_0_1 (lit "-1ubuntu1")
  /\ parse_version world_13_0_1
       (lit "Ubuntu clang-format version 14.0.6-1ubuntu1")
     = Ok (mkVersion 14 0 6).
Proof.
  assert (Hn : forall d n,
             d <> [] -> digits_value world_13_0_1 0 d = Some n ->
             List.length d <= 4300 -> numeral world_13_0_1 d n).
  { intros d n H1 H2 H3. split; [exact H1|]. split; [exact H2|]. now right. }
  assert (H14 : numeral world_13_0_1 (lit "14") 14)
    by (apply Hn; [discriminate | reflexivity | now apply Nat.leb_le]).
  assert (H0 : numeral world_13_0_1 (lit "0") 0)
    by (apply Hn; [discriminate | reflexivity | now apply Nat.leb_le]).
  assert (H6 : numeral world_13_0_1 (lit "6") 6)
    by (apply Hn; [discriminate | reflexivity | now apply Nat.leb_le]).
  assert (Hs : separator world_13_0_1 46%N)
    by (split; [reflexivity | discriminate]).
  assert (Hp : no_digit_ahead world_13_0_1 (lit "-1ubuntu1"))
    by reflexivity.
  split; [exact H14|]. split; [exact Hs|]. split; [exact Hp|].
  apply (version_read_from_output world_13_0_1 (lit "Ubuntu ")
           (lit "14") (lit "0") (lit "6") (lit "-1ubuntu1") 46%N 46%N
           14 0 6); try assumption.
  vm_compute. intuition discriminate.
Defined.

(* ===================================================================== *)
(** ** Printing a version and reading it back *)
(* ===================================================================== *)

Section Decimal.

Variable w : World.
Hypothesis ascii_ok : ascii_digits w.

Lemma ascii_digit_value (c : char) :
  (48 <= c <= 57)%N -> unicode_decimal w c = Some (c - 48)%N.
Proof.
  intros Hc. destruct ascii_ok as [Hd _].
  replace c with (48 + (c - 48))%N at 1 by lia. apply Hd. lia.
Qed.

Lemma lit_String (a : Ascii.ascii) (s : string) :
  lit (String a s) = N_of_ascii a :: lit s.
Proof. reflexivity. Qed.

Ltac eval_char :=
  match goal with
  | |- context [N_of_ascii ?a] =>
    let v := eval vm_compute in (N_of_ascii a) in
    change (N_of_ascii a) with v
  end.

Lemma digits_value_uint_acc (d : Decimal.uint) (acc : positive) :
  digits_value w (Npos acc) (lit (NilEmpty.string_of_uint d))
  = Some (Npos (Pos.of_uint_acc d acc)).
Proof.
  revert acc. induction d as [|d IH|d IH|d IH|d IH|d IH|d IH|d IH|d IH|d IH|d IH];
    intros acc; [reflexivity|..];
    cbn [NilEmpty.string_of_uint]; rewrite lit_String;
    cbn [digits_value Pos.of_uint_acc]; eval_char;
    rewrite ascii_digit_value by lia;
    rewrite <- IH; f_equal; lia.
Qed.

Lemma digits_value_uint (d : Decimal.uint) :
  digits_value w 0 (lit (NilEmpty.string_of_uint d)) = Some (Pos.of_uint d).
Proof.
  induction d as [|d IH|d IH|d IH|d IH|d IH|d IH|d IH|d IH|d IH|d IH];
    [reflexivity|..];
    cbn [NilEmpty.string_of_uint]; rewrite lit_String;
    cbn [digits_value Pos.of_uint]; eval_char;
    rewrite ascii_digit_value by lia;
    [exact IH | apply digits_value_uint_acc ..].
Qed.

Lemma string_of_uint_nonempty (d : Decimal.uint) :
  lit (NilZero.string_of_uint d) <> [].
Proof. destruct d; discriminate. Qed.

(** What is printed for a number that is not negative reads back as that
    number. *)
Lemma digits_value_int_str (z : Z) :
  (0 <= z)%Z ->
  int_str z <> [] /\ digits_value w 0 (int_str z) = Some (Z.to_N z).
Proof.
  intros Hz. unfold int_str. destruct z as [|p|p]; [| |lia].
  - split; [discriminate|]. cbn [Z.to_int NilZero.string_of_int].
    change (lit (NilZero.string_of_uint Decimal.zero)) with [48%N].
    cbn [digits_value]. now rewrite ascii_digit_value by lia.
  - cbn [Z.to_int NilZero.string_of_int]. split;
      [apply string_of_uint_nonempty|].
    assert (Hs : NilZero.string_of_uint (Pos.to_uint p)
                 = NilEmpty.string_of_uint (Pos.to_uint p)).
    { destruct (Pos.to_uint p) eqn:E; try reflexivity.
      exfalso. pose proof (DecimalPos.Unsigned.of_to p) as H.
      rewrite E in H. discriminate. }
    rewrite Hs, digits_value_uint, DecimalPos.Unsigned.of_to. reflexivity.
Qed.

Lemma numeral_int_str (z : Z) :
  (0 <= z)%Z ->
  within_digit_limit w (int_str z) ->
  numeral w (int_str z) (Z.to_N z).
Proof.
  intros Hz Hlim. destruct (digits_value_int_str z Hz) as [Hne Hv].
  now repeat split.
Qed.

End Decimal.

(** The way a version is printed is the way it is read.  Where the ASCII
    digits are decimal digits and the dot is not, the text [a.b.c] that
    [Version.__repr__] gives for a version of numbers that are not
    negative (and within the digit limit of [int]), put after the phrase,
    is parsed back to the same version. *)
Theorem version_repr_read_back (w : World) (version : Version)
    (pre post : str) :
  ascii_digits w ->
  (0 <= major version)%Z ->
  (0 <= minor version)%Z ->
  (0 <= patch version)%Z ->
  within_digit_limit w (int_str (major version)) ->
  within_digit_limit w (int_str (minor version)) ->
  within_digit_limit w (int_str (patch version)) ->
  ~ In 99%N pre ->
  no_digit_ahead w post ->
  parse_version w (pre ++ lit "clang-format version "
                       ++ Version_repr version ++ post)
  = Ok version.
Proof.
  intros Hascii Hma Hmi Hpa Lma Lmi Lpa Hpre Hpost.
  assert (Hdot : separator w 46%N).
  { split; [|discriminate]. unfold is_digit.
    destruct Hascii as [_ ->]. reflexivity. }
  assert (Heq : pre ++ lit "clang-format version "
                     ++ Version_repr version ++ post
                = pre ++ lit "clang-format version "
                      ++ int_str (major version)
                      ++ 46%N :: int_str (minor version)
                      ++ 46%N :: int_str (patch version) ++ post).
  { unfold Version_repr. now rewrite <- !app_assoc. }
  rewrite Heq.
  transitivity (Ok (mkVersion (Z.of_N (Z.to_N (major version)))
                              (Z.of_N (Z.to_N (minor version)))
                              (Z.of_N (Z.to_N (patch version))))).
  - apply parse_usual_output; try assumption; now apply numeral_int_str.
  - rewrite !Z2N.id by assumption. now destruct version.
Qed.

Lemma version_repr_read_back_witness :
  ascii_digits world_13_0_1
  /\ parse_version world_13_0_1
       (lit "Debian " ++ lit "clang-format version "
        ++ Version_repr (mkVersion 11 0 1) ++ lit "-2")
     = Ok (mkVersion 11 0 1).
Proof.
  assert (H : ascii_digits world_13_0_1).
  { split; [|reflexivity]. intros d Hd. cbn [unicode_decimal world_13_0_1
      sample_world]. unfold ascii_decimal.
    replace ((48 <=? 48 + d) && (48 + d <=? 57))%N with true.
    - f_equal. lia.
    - symmetry. apply andb_true_iff. split; apply N.leb_le; lia. }
  split; [exact H|].
  apply (version_repr_read_back world_13_0_1 (mkVersion 11 0 1)
           (lit "Debian ") (lit "-2") H);
    try (cbn; lia); try (right; now apply Nat.leb_le); try reflexivity.
  vm_compute. intuition discriminate.
Defined.

(* ===================================================================== *)
(** ** The order of versions *)
(* ===================================================================== *)

Ltac order_cases :=
  unfold Version_lt, astuple, tuple3_lt; cbn [major minor patch];
  repeat match goal with
         | |- context [(?x =? ?y)%Z] => destruct (Z.eqb_spec x y); cbn [negb]
         | H : context [(?x =? ?y)%Z] |- _ =>
           destruct (Z.eqb_spec x y); cbn [negb] in H
         end;
  rewrite ?Z.ltb_lt, ?Z.ltb_ge in *.

(** The order the dataclass gives to versions is a strict total order: no
    version is below itself, the order is transitive, and of two
    different versions one is below the other. *)
Theorem Version_lt_strict_total :
  (forall v, Version_lt v v = false)
  /\ (forall v1 v2 v3,
         Version_lt v1 v2 = true -> Version_lt v2 v3 = true ->
         Version_lt v1 v3 = true)
  /\ (forall v1 v2,
         Version_lt v1 v2 = false -> Version_lt v2 v1 = false -> v1 = v2).
Proof.
  split; [|split].
  - intros [a b c]. order_cases; lia.
  - intros [a b c] [d e f] [g h i] H1 H2. revert H1 H2. order_cases;
      intros; subst; try lia.
  - intros [a b c] [d e f] H1 H2. revert H1 H2. order_cases;
      intros; subst; try lia; f_equal; lia.
Qed.

(** The versions rejected as too old, among those whose minor number and
    patch level are not negative, are the ones with a major number below
    13, and 13.0.0. *)
Theorem too_old_versions (version : Version) :
  (0 <= minor version)%Z ->
  (0 <= patch version)%Z ->
  Version_lt version CLANG_FORMAT_VER_REQ = true
  <-> (major version < 13)%Z
      \/ (major version = 13%Z /\ minor version = 0%Z
          /\ patch version = 0%Z).
Proof.
  destruct version as [a b c]. cbn [major minor patch]. intros Hb Hc.
  unfold CLANG_FORMAT_VER_REQ. order_cases; subst; split; intros; lia.
Qed.

Lemma too_old_versions_witness :
  Version_lt (mkVersion 13 0 0) CLANG_FORMAT_VER_REQ = true
  /\ Version_lt (mkVersion 13 0 1) CLANG_FORMAT_VER_REQ = false.
Proof.
  split.
  - apply (too_old_versions (mkVersion 13 0 0)); cbn; lia.
  - reflexivity.
Defined.

(** A version that is not below an accepted version is accepted too. *)
Theorem acceptance_monotone (v v' : Version) :
  Version_lt v CLANG_FORMAT_VER_REQ = false ->
  Version_lt v' v = false ->
  Version_lt v' CLANG_FORMAT_VER_REQ = false.
Proof.
  destruct v as [a b c], v' as [d e f]. unfold CLANG_FORMAT_VER_REQ.
  intros H1 H2. revert H1 H2. order_cases; intros; subst; lia.
Qed.

Lemma acceptance_monotone_witness :
  Version_lt (mkVersion 13 0 1) CLANG_FORMAT_VER_REQ = false
  /\ Version_lt (mkVersion 15 0 7) (mkVersion 13 0 1) = false
  /\ Version_lt (mkVersion 15 0 7) CLANG_FORMAT_VER_REQ = false.
Proof.
  split; [reflexivity|]. split; [reflexivity|].
  exact (acceptance_monotone (mkVersion 13 0 1) (mkVersion 15 0 7)
           eq_refl eq_refl).
Defined.

(* ===================================================================== *)
(** ** The order of the files of a directory *)
(* ===================================================================== *)

Lemma filter_perm {A} (f : A -> bool) (l1 l2 : list A) :
  Permutation l1 l2 -> Permutation (filter f l1) (filter f l2).
Proof.
  induction 1 as [| x l1 l2 _ IH | x y l | l1 l2 l3 _ IH1 _ IH2];
    cbn [filter].
  - constructor.
  - destruct (f x); [now constructor | exact IH].
  - destruct (f x), (f y); try reflexivity. apply perm_swap.
  - now transitivity (filter f l2).
Qed.

Section Canonical.

Variable w : World.
Hypothesis order : path_order w.
Hypothesis total : path_total w.

(** A list has one sorted arrangement only. *)
Lemma strongly_sorted_unique (l1 l2 : list Path) :
  StronglySorted (path_le w) l1 ->
  StronglySorted (path_le w) l2 ->
  Permutation l1 l2 ->
  l1 = l2.
Proof.
  intros H1. revert l2. induction H1 as [|a l1 Hs1 IH Ha]; intros l2 H2 Hp.
  - now apply Permutation_nil in Hp.
  - destruct H2 as [|b l2 Hs2 Hb].
    + now apply Permutation_sym, Permutation_nil in Hp.
    + assert (Hab : a = b).
      { assert (Hin1 : In a (b :: l2))
          by (apply (Permutation_in _ Hp); now left).
        assert (Hin2 : In b (a :: l1))
          by (apply (Permutation_in _ (Permutation_sym Hp)); now left).
        destruct Hin1 as [-> | Hin1]; [reflexivity|].
        destruct Hin2 as [<- | Hin2]; [reflexivity|].
        rewrite Forall_forall in Ha, Hb.
        apply total; [apply (Hb a Hin1) | apply (Ha b Hin2)]. }
      subst b. f_equal. apply IH; [exact Hs2|].
      now apply Permutation_cons_inv with a.
Qed.

Lemma sorted_canonical (l1 l2 : list Path) :
  Permutation l1 l2 -> sorted w l1 = sorted w l2.
Proof.
  intros Hp. apply strongly_sorted_unique.
  - now apply sorted_strongly.
  - now apply sorted_strongly.
  - rewrite <- (sorted_perm w l1), <- (sorted_perm w l2). exact Hp.
Qed.

End Canonical.

(** The files a directory adds come in an order that does not depend on
    the order in which the file system lists them: where the order of
    paths is total, two listings with the same entries give the same
    sorted matches. *)
Theorem listing_order_irrelevant (w : World) (suffix : str)
    (l1 l2 : list Path) :
  path_order w ->
  path_total w ->
  Permutation l1 l2 ->
  sorted w (filter (ends_with suffix) l1)
  = sorted w (filter (ends_with suffix) l2).
Proof.
  intros Ho Ht Hp. apply sorted_canonical; [exact Ho | exact Ht|].
  now apply filter_perm.
Qed.

Lemma str_ltb_total (p q : str) :
  str_ltb p q = false -> str_ltb q p = false -> p = q.
Proof.
  revert q. induction p as [|x p IH]; intros [|y q]; cbn; try easy.
  rewrite !orb_false_iff, !andb_false_iff, !N.ltb_ge, !N.eqb_neq.
  intros [H1 H2] [H3 H4]. assert (x = y) by lia. subst y.
  f_equal. apply IH.
  - destruct H2 as [H2|H2]; [congruence | exact H2].
  - destruct H4 as [H4|H4]; [congruence | exact H4].
Qed.

Lemma listing_order_irrelevant_witness :
  path_order world_13_0_1
  /\ path_total world_13_0_1
  /\ sorted world_13_0_1
       (filter (ends_with (lit ".c"))
               [lit "d/z.c"; lit "d/b.h"; lit "d/a.c"])
     = sorted world_13_0_1
         (filter (ends_with (lit ".c"))
                 [lit "d/a.c"; lit "d/z.c"; lit "d/b.h"]).
Proof.
  assert (Ho : path_order world_13_0_1) by apply sample_path_order.
  assert (Ht : path_total world_13_0_1)
    by (intros p q; apply str_ltb_total).
  split; [exact Ho|]. split; [exact Ht|].
  apply (listing_order_irrelevant world_13_0_1 (lit ".c") _ _ Ho Ht).
  apply Permutation_sym.
  apply (Permutation_cons_app [lit "d/z.c"; lit "d/b.h"] []).
  reflexivity.
Defined.

(* ===================================================================== *)
(** ** What is shown of the formatter's output *)
(* ===================================================================== *)

Lemma lstrip_split (s : str) :
  exists pre,
    s = pre ++ lstrip s
    /\ forallb is_space pre = true
    /\ match lstrip s with
       | [] => True
       | c :: _ => is_space c = false
       end.
Proof.
  induction s as [|c s (pre & Hs & Hpre & Hhead)].
  - now exists [].
  - cbn [lstrip]. destruct (is_space c) eqn:Hc.
    + exists (c :: pre). cbn [app forallb]. rewrite Hc, Hpre.
      repeat split; [now f_equal | exact Hhead].
    + exists []. now repeat split.
Qed.

Lemma rstrip_split (s : str) :
  exists tail,
    s = rstrip s ++ tail
    /\ forallb is_space tail = true
    /\ forall k c, rstrip s = k ++ [c] -> is_space c = false.
Proof.
  unfold rstrip. destruct (lstrip_split (rev s)) as (pre & Hs & Hpre & Hhead).
  exists (rev pre). split; [|split].
  - rewrite <- rev_app_distr, <- Hs. now rewrite rev_involutive.
  - rewrite forallb_forall in *. intros x Hx. apply Hpre.
    now apply in_rev.
  - intros k c Hk. apply (f_equal (@rev _)) in Hk.
    rewrite rev_involutive, rev_app_distr in Hk. cbn in Hk.
    now rewrite Hk in Hhead.
Qed.

(** What the run shows of a stream of the formatter that is not empty is
    the text of the stream without its trailing whitespace: only
    whitespace is cut, and only at the end, and what is shown does not end
    in whitespace.  Of an empty stream nothing is shown, not even an
    empty line. *)
Theorem stream_shown_stripped (b : bytes) (text : str) :
  utf8_decode b = Some text ->
  (nonempty b = false /\ print_if_any b = ([], Ok tt))
  \/ (nonempty b = true
      /\ exists kept tail,
           print_if_any b = ([Print [Plain kept]], Ok tt)
           /\ text = kept ++ tail
           /\ forallb is_space tail = true
           /\ forall k c, kept = k ++ [c] -> is_space c = false).
Proof.
  intros Hd. unfold print_if_any, decode. rewrite Hd.
  destruct (nonempty b); [right | now left].
  split; [reflexivity|].
  destruct (rstrip_split text) as (tail & Hs & Ht & Hk).
  exists (rstrip text), tail. now repeat split.
Qed.

Lemma stream_shown_stripped_witness :
  utf8_decode (bytes_of "Formatting d/a.c  ") = Some (lit "Formatting d/a.c  ")
  /\ print_if_any (bytes_of "Formatting d/a.c  ")
     = ([Print [Plain (lit "Formatting d/a.c")]], Ok tt).
Proof.
  split; [reflexivity|].
  destruct (stream_shown_stripped (bytes_of "Formatting d/a.c  ")
              (lit "Formatting d/a.c  ") eq_refl)
    as [[Hn _] | (_ & kept & tail & Hp & _)].
  - discriminate Hn.
  - reflexivity.
Defined.

(* ===================================================================== *)
(** ** File discovery *)
(* ===================================================================== *)

Lemma bind_cases {A B} (m : M A) (f : A -> M B) :
  (exists a, result m = Ok a
             /\ bind m f = (trace m ++ trace (f a), result (f a)))
  \/ (exists e, result m = Raise e /\ bind m f = (trace m, Raise e)).
Proof.
  destruct m as [t [a | e]].
  - left. exists a. split; [reflexivity|]. cbn. now destruct (f a).
  - right. now exists e.
Qed.

Section Discovery.

Variable w : World.

Lemma is_invalid_run (p : Path) :
  is_invalid w p
  = (validity_queries w p,
     match invalid w p with
     | Answer b => Ok b
     | Refused reason => Raise (OSError reason)
     end).
Proof.
  unfold is_invalid, validity_queries, invalid, path_exists, path_is_dir,
    path_is_file.
  destruct (fs_exists w p) as [[|]|r1]; cbn; try reflexivity.
  destruct (fs_is_dir w p) as [[|]|r2]; cbn; try reflexivity.
  destruct (fs_is_file w p) as [[|]|r3]; reflexivity.
Qed.

(** A rejected argument: a warning, and the files found stay as they
    are. *)
Lemma discover_one_rejected (g : list Path) (input_str : str) :
  invalid w (Path_of w input_str) = Answer true ->
  discover_one w g input_str
  = (validity_queries w (Path_of w input_str)
     ++ [Print (warning_for w input_str)],
     Ok g).
Proof.
  intros H. unfold discover_one. rewrite is_invalid_run, H. reflexivity.
Qed.

(** A query of line 76 that fails ends the turn with its error. *)
Lemma discover_one_refused (g : list Path) (input_str : str) (reason : str) :
  invalid w (Path_of w input_str) = Refused reason ->
  discover_one w g input_str
  = (validity_queries w (Path_of w input_str), Raise (OSError reason)).
Proof.
  intros H. unfold discover_one. rewrite is_invalid_run, H. reflexivity.
Qed.

Lemma discover_one_dir (g : list Path) (input_str : str) :
  fs_exists w (Path_of w input_str) = Answer true ->
  fs_is_dir w (Path_of w input_str) = Answer true ->
  discover_one w g input_str
  = ([Exists (Path_of w input_str); IsDir (Path_of w input_str);
      IsDir (Path_of w input_str);
      Glob (Path_of w input_str) (Recursive (lit ".c"));
      Glob (Path_of w input_str) (Recursive (lit ".h"))],
     Ok (g ++ sorted w (glob_matches w (Path_of w input_str)
                                     (Recursive (lit ".c")))
           ++ sorted w (glob_matches w (Path_of w input_str)
                                     (Recursive (lit ".h"))))).
Proof.
  intros He Hd. unfold discover_one. rewrite is_invalid_run.
  unfold validity_queries, invalid, path_is_dir, path_glob.
  rewrite He, Hd. cbn. now rewrite <- app_assoc.
Qed.

Lemma discover_one_file (g : list Path) (input_str : str) :
  fs_exists w (Path_of w input_str) = Answer true ->
  fs_is_file w (Path_of w input_str) = Answer true ->
  fs_is_dir w (Path_of w input_str) = Answer false ->
  discover_one w g input_str
  = ([Exists (Path_of w input_str); IsDir (Path_of w input_str);
      IsFile (Path_of w input_str); IsDir (Path_of w input_str);
      IsFile (Path_of w input_str)],
     Ok (g ++ [Path_of w input_str])).
Proof.
  intros He Hf Hd. unfold discover_one. rewrite is_invalid_run.
  unfold validity_queries, invalid, path_is_dir, path_is_file.
  rewrite He, Hf, Hd. reflexivity.
Qed.

(** The ways a turn of the loop can go. *)
Lemma discover_one_cases (g : list Path) (input_str : str) :
  (invalid w (Path_of w input_str) = Answer true
   /\ discover_one w g input_str
      = (validity_queries w (Path_of w input_str)
         ++ [Print (warning_for w input_str)], Ok g))
  \/ (exists reason,
         invalid w (Path_of w input_str) = Refused reason
         /\ discover_one w g input_str
            = (validity_queries w (Path_of w input_str),
               Raise (OSError reason)))
  \/ (invalid w (Path_of w input_str) = Answer false
      /\ exists t added,
           discover_one w g input_str = (t, Ok (g ++ added))
           /\ Forall (fun e => is_discovery e = true) t).
Proof.
  destruct (invalid w (Path_of w input_str)) as [[|]|reason] eqn:H.
  - left. split; [reflexivity|]. now apply discover_one_rejected.
  - right. right. split; [reflexivity|].
    unfold invalid in H.
    destruct (fs_exists w (Path_of w input_str)) as [[|]|r1] eqn:He;
      try discriminate.
    destruct (fs_is_dir w (Path_of w input_str)) as [[|]|r2] eqn:Hd;
      try discriminate.
    + eexists. eexists. split; [now apply discover_one_dir|].
      repeat constructor.
    + destruct (fs_is_file w (Path_of w input_str)) as [[|]|r3] eqn:Hf;
        try discriminate.
      eexists. eexists. split; [now apply discover_one_file|].
      repeat constructor.
  - right. left. exists reason. split; [reflexivity|].
    now apply discover_one_refused.
Qed.

Lemma validity_queries_discovery (p : Path) :
  Forall (fun e => is_discovery e = true) (validity_queries w p).
Proof.
  unfold validity_queries.
  destruct (fs_exists w p) as [[|]|r1]; [|repeat constructor..].
  destruct (fs_is_dir w p) as [[|]|r2]; repeat constructor.
Qed.

Lemma discovery_event_query (e : event) :
  is_discovery e = true -> discovery_event w e.
Proof. destruct e; cbn; try discriminate; trivial. Qed.

Lemma discover_one_events (g : list Path) (input_str : str) :
  Forall (discovery_event w) (trace (discover_one w g input_str)).
Proof.
  destruct (discover_one_cases g input_str)
    as [[_ ->] | [(reason & _ & ->) | (_ & t & added & -> & Ht)]];
    cbn [trace fst].
  - apply Forall_app. split.
    + eapply Forall_impl; [|apply validity_queries_discovery].
      apply discovery_event_query.
    + constructor; [|constructor]. cbn. now exists input_str.
  - eapply Forall_impl; [|apply validity_queries_discovery].
    apply discovery_event_query.
  - eapply Forall_impl; [|exact Ht]. apply discovery_event_query.
Qed.

Lemma discover_one_raises (g : list Path) (input_str : str) (e : exn) :
  result (discover_one w g input_str) = Raise e ->
  exists reason, e = OSError reason.
Proof.
  destruct (discover_one_cases g input_str)
    as [[_ ->] | [(reason & _ & ->) | (_ & t & added & -> & Ht)]];
    cbn [result snd]; try discriminate.
  intros [= <-]. now exists reason.
Qed.

Lemma discover_cons (g : list Path) (input_str : str) (rest : list str) :
  (exists g',
      result (discover_one w g input_str) = Ok g'
      /\ discover w g (input_str :: rest)
         = (trace (discover_one w g input_str) ++ trace (discover w g' rest),
            result (discover w g' rest)))
  \/ (exists e,
         result (discover_one w g input_str) = Raise e
         /\ discover w g (input_str :: rest)
            = (trace (discover_one w g input_str), Raise e)).
Proof.
  cbn [discover].
  exact (bind_cases (discover_one w g input_str)
                    (fun g' => discover w g' rest)).
Qed.

(** Discovery leaves file system queries and warnings only. *)
Lemma discover_events (g : list Path) (paths : list str) :
  Forall (discovery_event w) (trace (discover w g paths)).
Proof.
  revert g. induction paths as [|x rest IH]; intros g; [constructor|].
  destruct (discover_cons g x rest) as [(g' & _ & ->) | (e & _ & ->)];
    cbn [trace fst].
  - apply Forall_app. split; [apply discover_one_events | apply IH].
  - apply discover_one_events.
Qed.

(** Discovery ends in no exception but the [OSError] of a query: the
    assertion of line 84 holds whenever it is reached. *)
Lemma discover_raises (g : list Path) (paths : list str) (e : exn) :
  result (discover w g paths) = Raise e -> exists reason, e = OSError reason.
Proof.
  revert g. induction paths as [|x rest IH]; intros g; [discriminate|].
  destruct (discover_cons g x rest) as [(g' & _ & ->) | (e' & He & ->)];
    cbn [result snd].
  - apply IH.
  - intros [= <-]. now apply discover_one_raises in He.
Qed.

Lemma spawned_discovery (t : list event) :
  Forall (discovery_event w) t -> spawned t = [].
Proof.
  induction 1 as [|e t He _ IH]; [reflexivity|].
  destruct e; cbn in *; try assumption. contradiction.
Qed.




End Discovery.
(* ===================================================================== *)
(** ** The run, phase by phase *)
(* ===================================================================== *)

Section Run.

Variable w : World.

(** Resolving the files found: all of them, or up to the first link
    loop. *)
Lemma resolve_all_cases (files : list Path) :
  (exists resolved,
      resolve_all w files = (map Resolve files, Ok resolved)
      /\ Forall2 (fun f r => fs_resolve w f = Resolved r) files resolved)
  \/ (exists before f after reason,
         files = before ++ f :: after
         /\ fs_resolve w f = SymlinkLoop reason
         /\ resolve_all w files
            = (map Resolve (before ++ [f]), Raise (RuntimeError reason))).
Proof.
  induction files as [|f files IH].
  - left. exists []. split; [reflexivity | constructor].
  - cbn [resolve_all]. unfold path_resolve.
    destruct (fs_resolve w f) as [r | reason] eqn:Hf.
    + destruct IH as [(resolved & Hr & Hall)
                     | (before & f' & after & reason & -> & Hf' & Hr)];
        rewrite Hr.
      * left. exists (r :: resolved). split; [|now constructor].
        cbn. now rewrite app_nil_r.
      * right. exists (f :: before), f', after, reason.
        split; [reflexivity|]. split; [exact Hf' | reflexivity].
    + right. exists [], f, files, reason.
      split; [reflexivity|]. split; [exact Hf | reflexivity].
Qed.

Lemma resolve_all_ok (files : list Path) (resolved : list str) :
  result (resolve_all w files) = Ok resolved ->
  resolve_all w files = (map Resolve files, Ok resolved).
Proof.
  destruct (resolve_all_cases files)
    as [(r & -> & _) | (b & f & a & reason & _ & _ & ->)];
    cbn [result snd]; [now intros [= ->] | discriminate].
Qed.

Lemma resolve_all_events (files : list Path) :
  Forall (fun e => is_discovery e = true) (trace (resolve_all w files)).
Proof.
  destruct (resolve_all_cases files)
    as [(r & -> & _) | (b & f & a & reason & _ & _ & ->)];
    cbn [trace fst]; apply Forall_forall; intros e He;
    apply in_map_iff in He as (x & <- & _); reflexivity.
Qed.

Lemma resolve_all_raises (files : list Path) (e : exn) :
  result (resolve_all w files) = Raise e ->
  exists reason, e = RuntimeError reason.
Proof.
  destruct (resolve_all_cases files)
    as [(r & -> & _) | (b & f & a & reason & _ & _ & ->)];
    cbn [result snd]; [discriminate|]. intros [= <-]. now exists reason.
Qed.

(** The formatting run, from the resolving of the files on. *)
Lemma run_format_cases (files : list Path) :
  run_format w files
  = match result (resolve_all w files) with
    | Raise e => (trace (resolve_all w files), Raise e)
    | Ok resolved =>
      (trace (resolve_all w files) ++ Spawn (format_argv resolved)
         :: trace (after_format (process w (format_argv resolved))),
       result (after_format (process w (format_argv resolved))))
    end.
Proof.
  unfold run_format.
  destruct (resolve_all w files) as [t [resolved | e]]; [|reflexivity].
  rewrite bind_ok. cbn [trace result fst snd].
  fold (format_argv resolved). unfold subprocess_run, after_format.
  destruct (process w (format_argv resolved)) as [reason | rc out err].
  - reflexivity.
  - destruct (rc =? 0)%Z.
    + cbn. destruct (print_if_any out) as [t1 [[]|e1]]; cbn.
      * destruct (print_if_any err) as [t2 [[]|e2]]; reflexivity.
      * reflexivity.
    + cbn. unfold decode. destruct (utf8_decode err); reflexivity.
Qed.

Lemma discover_and_format_cases (paths : list str) :
  discover_and_format w paths
  = match result (discover w [] paths) with
    | Raise e => (trace (discover w [] paths), Raise e)
    | Ok files =>
      (trace (discover w [] paths) ++ trace (run_format w files),
       result (run_format w files))
    end.
Proof.
  unfold discover_and_format.
  destruct (discover w [] paths) as [t [files | e]]; [|reflexivity].
  apply bind_ok.
Qed.

Lemma print_if_any_cases (b : bytes) :
  print_if_any b = ([], Ok tt)
  \/ (exists text, print_if_any b = ([Print [Plain text]], Ok tt))
  \/ print_if_any b = ([], Raise UnicodeDecodeError).
Proof.
  unfold print_if_any, decode. destruct (nonempty b); [|now left].
  destruct (utf8_decode b) as [t|]; cbn; [right; left; now eexists|].
  now right; right.
Qed.

(** What follows the formatting process: prints of plain text only, and
    an end that is a status, the error of the process that could not be
    started, or a decoding error. *)
Lemma after_format_cases (r : proc_result) :
  Forall (fun e => exists text, e = Print [Plain text])
         (trace (after_format r))
  /\ ((exists code, result (after_format r) = Ok code
                    /\ (code = 0%Z \/ code = (-1)%Z)
                    /\ (code = 0%Z <-> exists out err, r = Exited 0 out err))
      \/ (exists reason, result (after_format r) = Raise (OSError reason)
                         /\ r = NotStarted reason)
      \/ (result (after_format r) = Raise UnicodeDecodeError
          /\ exists rc out err, r = Exited rc out err)).
Proof.
  unfold after_format. destruct r as [reason | rc out err].
  - split; [constructor|]. right. left. now exists reason.
  - destruct (Z.eqb_spec rc 0) as [-> | Hrc].
    + assert (Hz : exists out' err', Exited 0 out err = Exited 0 out' err')
        by now exists out, err.
      assert (Hx : exists rc' out' err', Exited 0 out err = Exited rc' out' err')
        by now exists 0%Z, out, err.
      destruct (print_if_any_cases out) as [-> | [[t1 ->] | ->]];
        destruct (print_if_any_cases err) as [-> | [[t2 ->] | ->]];
        cbn; (split; [repeat constructor; eexists; reflexivity|]);
        first [ left; exists 0%Z; split; [reflexivity|]; split; [now left|];
                split; [intros _; exact Hz | reflexivity]
              | right; right; split; [reflexivity | exact Hx] ].
    + unfold decode. destruct (utf8_decode err) as [t|]; cbn.
      * split; [repeat constructor; eexists; reflexivity|].
        left. exists (-1)%Z. split; [reflexivity|]. split; [now right|].
        split; [discriminate|]. intros (o & e & [= ? _ _]). contradiction.
      * split; [constructor|]. right. right.
        split; [reflexivity | now exists rc, out, err].
Qed.

(** A run whose version query reports an accepted version goes on with
    discovery and the formatting run, and ends as they do. *)
Lemma main_accepted (paths : list str) (version : Version) :
  reports_version w version ->
  Version_lt version CLANG_FORMAT_VER_REQ = false ->
  main w paths
  = (Spawn version_cmd :: accepted_report version
       ++ trace (discover_and_format w paths),
     result (discover_and_format w paths)).
Proof.
  intros (out & err & text & Hp & Hd & Hv) Hlt.
  unfold main, run_version_query, subprocess_run. rewrite Hp.
  cbn. unfold decode. rewrite Hd. cbn. rewrite Hv. cbn. rewrite Hlt.
  fold (discover_and_format w paths).
  destruct (major version >? 13)%Z; [unfold print, emit | unfold ret];
    rewrite bind_ok; reflexivity.
Qed.

(** A run whose version query reports a version that is too old. *)
Lemma main_too_old (paths : list str) (version : Version) :
  reports_version w version ->
  Version_lt version CLANG_FORMAT_VER_REQ = true ->
  main w paths
  = ([Spawn version_cmd;
      Print [Colored (lit "ERROR: clang-format version is too old!") red];
      Print [Colored (lit "       Requires version "
                      ++ Version_repr CLANG_FORMAT_VER_REQ
                      ++ lit " but is " ++ Version_repr version) red]],
     Ok (-1)%Z).
Proof.
  intros (out & err & text & Hp & Hd & Hv) Hlt.
  unfold main, run_version_query, subprocess_run. rewrite Hp.
  cbn. unfold decode. rewrite Hd. cbn. rewrite Hv. cbn. rewrite Hlt.
  reflexivity.
Qed.

(** The line printed for a failed version query is the message of the
    [CalledProcessError], which names the command and the exit status. *)
Lemma version_query_failure_line (paths : list str) rc out err :
  process w version_cmd = Exited rc out err ->
  rc <> 0%Z ->
  main w paths
  = ([Spawn version_cmd;
      Print [Plain (CalledProcessError_str w rc version_cmd)]],
     Ok (-1)%Z).
Proof.
  intros Hp Hrc. unfold main, run_version_query, subprocess_run.
  rewrite Hp. apply Z.eqb_neq in Hrc. rewrite Hrc. reflexivity.
Qed.

Lemma parse_version_raises (text : str) (e : exn) :
  parse_version w text = Raise e ->
  e = AssertionError (lit "Incorrect clang-format version output?")
  \/ e = ValueError.
Proof.
  destruct (re_search (is_digit w) CLANG_FORMAT_VER_REGEX text) as [m|] eqn:H.
  - destruct (parse_version_found w text m H) as [[v Hv] | Hv];
      rewrite Hv; [discriminate|]. intros [= <-]. now right.
  - unfold parse_version. rewrite H. intros [= <-]. now left.
Qed.

(** [main], case by case on what the version query gives. *)
Lemma main_cases (paths : list str) :
  main w paths
  = match process w version_cmd with
    | NotStarted reason => ([Spawn version_cmd], Raise (OSError reason))
    | Exited rc out err =>
      if (rc =? 0)%Z then
        match utf8_decode out with
        | None => ([Spawn version_cmd], Raise UnicodeDecodeError)
        | Some text =>
          match parse_version w text with
          | Raise e => ([Spawn version_cmd], Raise e)
          | Ok version =>
            if Version_lt version CLANG_FORMAT_VER_REQ then
              ([Spawn version_cmd;
                Print [Colored (lit "ERROR: clang-format version is too old!")
                               red];
                Print [Colored (lit "       Requires version "
                                ++ Version_repr CLANG_FORMAT_VER_REQ
                                ++ lit " but is " ++ Version_repr version)
                               red]],
               Ok (-1)%Z)
            else
              (Spawn version_cmd :: accepted_report version
                 ++ trace (discover_and_format w paths),
               result (discover_and_format w paths))
          end
        end
      else
        ([Spawn version_cmd;
          Print [Plain (CalledProcessError_str w rc version_cmd)]],
         Ok (-1)%Z)
    end.
Proof.
  destruct (process w version_cmd) as [reason | rc out err] eqn:Hp.
  - unfold main, run_version_query, subprocess_run. now rewrite Hp.
  - destruct (Z.eqb_spec rc 0) as [-> | Hrc].
    + destruct (utf8_decode out) as [text|] eqn:Hd.
      * destruct (parse_version w text) as [version | e] eqn:Hv.
        -- assert (Hr : reports_version w version)
             by now exists out, err, text.
           destruct (Version_lt version CLANG_FORMAT_VER_REQ) eqn:Hlt.
           ++ now apply main_too_old.
           ++ now apply main_accepted.
        -- unfold main, run_version_query, subprocess_run. rewrite Hp.
           cbn. unfold decode. rewrite Hd. cbn. now rewrite Hv.
      * unfold main, run_version_query, subprocess_run. rewrite Hp.
        cbn. unfold decode. now rewrite Hd.
    + now rewrite (version_query_failure_line paths rc out err Hp Hrc).
Qed.

(** A run that passed the version check, found its files and resolved
    them starts the formatting command and ends as [after_format] says. *)
Lemma main_formats (paths : list str) (version : Version)
    (files : list Path) (resolved : list str) :
  reports_version w version ->
  Version_lt version CLANG_FORMAT_VER_REQ = false ->
  result (discover w [] paths) = Ok files ->
  result (resolve_all w files) = Ok resolved ->
  main w paths
  = (Spawn version_cmd :: accepted_report version
       ++ trace (discover w [] paths)
       ++ map Resolve files
       ++ Spawn (format_argv resolved)
       :: trace (after_format (process w (format_argv resolved))),
     result (after_format (process w (format_argv resolved)))).
Proof.
  intros Hv Hlt Hd Hr. rewrite (main_accepted paths version Hv Hlt).
  rewrite discover_and_format_cases, Hd, run_format_cases, Hr.
  rewrite (resolve_all_ok files resolved Hr). cbn [trace result fst snd].
  now rewrite <- ?app_assoc.
Qed.

(** The version check either lets the run go on, or the run ends with the
    version query as its only process and without a file system query. *)
Lemma version_accepted_cases :
  version_accepted w
  \/ (~ version_accepted w
      /\ forall paths, spawned (trace (main w paths)) = [version_cmd]
                       /\ filter is_discovery (trace (main w paths)) = []
                       /\ forall code, result (main w paths) = Ok code ->
                                       code = (-1)%Z).
Proof.
  unfold version_accepted, reports_version.
  destruct (process w version_cmd) as [reason | rc out err] eqn:Hp.
  - right. split.
    + intros (v & (o & e & t & H & _) & _). discriminate.
    + intros paths. rewrite main_cases, Hp.
      repeat split; intros code Hc; cbn in Hc; congruence.
  - destruct (Z.eqb_spec rc 0) as [-> | Hrc].
    + destruct (utf8_decode out) as [text|] eqn:Hd.
      * destruct (parse_version w text) as [version | e] eqn:Hv.
        -- destruct (Version_lt version CLANG_FORMAT_VER_REQ) eqn:Hlt.
           ++ right. split.
              ** intros (v & (o & e & t & H & Hd' & Hv') & Hlt').
                 injection H as <- <-. rewrite Hd in Hd'. injection Hd' as <-.
                 rewrite Hv in Hv'. injection Hv' as <-. congruence.
              ** intros paths. rewrite main_cases, Hp. cbn [Z.eqb].
                 rewrite Hd, Hv, Hlt.
                 repeat split; intros code Hc; cbn in Hc; congruence.
           ++ left. exists version. split; [|exact Hlt].
              now exists out, err, text.
        -- right. split.
           ++ intros (v & (o & e' & t & H & Hd' & Hv') & _).
              injection H as <- <-. rewrite Hd in Hd'. injection Hd' as <-.
              congruence.
           ++ intros paths. rewrite main_cases, Hp. cbn [Z.eqb].
              rewrite Hd, Hv.
              repeat split; intros code Hc; cbn in Hc; congruence.
      * right. split.
        -- intros (v & (o & e' & t & H & Hd' & _) & _).
           injection H as <- <-. congruence.
        -- intros paths. rewrite main_cases, Hp. cbn [Z.eqb].
           rewrite Hd. repeat split; intros code Hc; cbn in Hc; congruence.
    + right. split.
      * intros (v & (o & e & t & H & _) & _). congruence.
      * intros paths. rewrite main_cases, Hp.
        apply Z.eqb_neq in Hrc. rewrite Hrc.
        repeat split; intros code Hc; cbn in Hc; congruence.
Qed.

End Run.

Lemma spawned_app (a b : list event) :
  spawned (a ++ b) = spawned a ++ spawned b.
Proof.
  induction a as [|e a IH]; [reflexivity|].
  destruct e; cbn [app spawned]; now rewrite IH.
Qed.

Lemma spawned_queries (t : list event) :
  Forall (fun e => is_discovery e = true) t -> spawned t = [].
Proof.
  induction 1 as [|e l He _ IH]; [reflexivity|].
  destruct e; cbn in *; try discriminate; assumption.
Qed.


Lemma spawned_resolves (files : list Path) :
  spawned (map Resolve files) = [].
Proof. now induction files. Qed.

Lemma spawned_prints (t : list event) :
  Forall (fun e => exists text, e = Print [Plain text]) t ->
  spawned t = [] /\ filter is_discovery t = [].
Proof.
  induction 1 as [|e l [text ->] _ [IH1 IH2]]; [now split|].
  cbn. now split.
Qed.

Lemma spawned_accepted_report (version : Version) :
  spawned (accepted_report version) = [].
Proof.
  unfold accepted_report.
  now destruct (major version >? major CLANG_FORMAT_VER_REQ)%Z.
Qed.

Lemma reports_sample_version (s : string) (version : Version) fmt dirs files
    special :
  option_map (parse_version
                (sample_world (version_output s) fmt dirs files special))
             (utf8_decode (bytes_of s)) = Some (Ok version) ->
  reports_version (sample_world (version_output s) fmt dirs files special)
                  version.
Proof.
  intros H. destruct (utf8_decode (bytes_of s)) as [text|] eqn:Hd;
    [|discriminate].
  injection H as H. now exists (bytes_of s), [], text.
Qed.

(** The versions below the required one have a major number of at most
    13. *)
Lemma too_old_major (version : Version) :
  Version_lt version CLANG_FORMAT_VER_REQ = true -> (major version <= 13)%Z.
Proof.
  unfold Version_lt, astuple, tuple3_lt. cbn.
  destruct (Z.eqb_spec (major version) 13); cbn; [lia|].
  rewrite Z.ltb_lt. lia.
Qed.

Lemma newer_major_accepted (version : Version) :
  (major version > 13)%Z -> Version_lt version CLANG_FORMAT_VER_REQ = false.
Proof.
  intros H. destruct (Version_lt version CLANG_FORMAT_VER_REQ) eqn:E;
    [|reflexivity].
  apply too_old_major in E. lia.
Qed.
(* ===================================================================== *)
(** ** What the run prints about versions *)
(* ===================================================================== *)

Lemma py_int_nonneg (w : World) (s : str) (z : Z) :
  py_int w s = Ok z -> (0 <= z)%Z.
Proof.
  unfold py_int.
  destruct ((0 <? int_max_str_digits w)
            && (int_max_str_digits w <? List.length s)); [discriminate|].
  destruct s as [|c s]; [discriminate|].
  destruct (digits_value w 0 (c :: s)); [|discriminate].
  intros [= <-]. lia.
Qed.

Lemma int_group_nonneg (w : World) (m : re_match) (name : string) (z : Z) :
  int_group w m name = Ok z -> (0 <= z)%Z.
Proof.
  unfold int_group. destruct (group m name); [|discriminate].
  apply py_int_nonneg.
Qed.

(** The numbers of a parsed version are not negative. *)
Lemma parse_version_nonneg (w : World) (text : str) (version : Version) :
  parse_version w text = Ok version ->
  (0 <= major version)%Z /\ (0 <= minor version)%Z
  /\ (0 <= patch version)%Z.
Proof.
  unfold parse_version.
  destruct (re_search (is_digit w) CLANG_FORMAT_VER_REGEX text) as [m|];
    [|discriminate].
  destruct (int_group w m "major") as [ma|] eqn:Hma; [|discriminate].
  destruct (int_group w m "minor") as [mi|] eqn:Hmi; [|discriminate].
  destruct (int_group w m "patch") as [pa|] eqn:Hpa; [|discriminate].
  intros [= <-]. cbn [major minor patch].
  apply int_group_nonneg in Hma, Hmi, Hpa. now repeat split.
Qed.

Lemma ascii_digits_sample ver fmt dirs files special :
  ascii_digits (sample_world ver fmt dirs files special).
Proof.
  split; [|reflexivity]. intros d Hd.
  cbn [unicode_decimal sample_world]. unfold ascii_decimal.
  replace ((48 <=? 48 + d) && (48 + d <=? 57))%N with true.
  - f_equal. lia.
  - symmetry. apply andb_true_iff. split; apply N.leb_le; lia.
Qed.

Lemma read_digits_sample (s : str) (acc : N) :
  read_digits acc s = digits_value world_13_0_1 acc s.
Proof.
  revert acc. induction s as [|c s IH]; intros acc; [reflexivity|].
  cbn [read_digits digits_value unicode_decimal world_13_0_1 sample_world].
  unfold ascii_decimal. destruct ((48 <=? c) && (c <=? 57))%N; [apply IH|].
  reflexivity.
Qed.

(** A number that is not negative is printed as a numeral of ASCII digits
    with that value. *)
Lemma read_decimal_int_str (z : Z) :
  (0 <= z)%Z -> option_map Z.of_N (read_decimal (int_str z)) = Some z.
Proof.
  intros Hz.
  destruct (digits_value_int_str world_13_0_1
              (ascii_digits_sample _ _ _ _ _) z Hz) as [Hne Hv].
  unfold read_decimal. destruct (int_str z) as [|c s] eqn:E;
    [contradiction|].
  rewrite read_digits_sample, Hv. cbn [option_map]. now rewrite Z2N.id.
Qed.

Lemma Version_repr_names (version : Version) :
  (0 <= major version)%Z -> (0 <= minor version)%Z ->
  (0 <= patch version)%Z ->
  names_version (Version_repr version) version.
Proof.
  intros Hma Hmi Hpa.
  exists (int_str (major version)), (int_str (minor version)),
         (int_str (patch version)).
  split; [reflexivity|].
  now rewrite !read_decimal_int_str.
Qed.

Lemma reports_version_names (w : World) (version : Version) :
  reports_version w version -> names_version (Version_repr version) version.
Proof.
  intros (out & err & text & _ & _ & Hv).
  apply parse_version_nonneg in Hv as (Hma & Hmi & Hpa).
  now apply Version_repr_names.
Qed.

Lemma too_old_line (shown_version : str) :
  lit "       Requires version " ++ Version_repr CLANG_FORMAT_VER_REQ
    ++ lit " but is " ++ shown_version
  = lit "       Requires version 13.0.1 but is " ++ shown_version.
Proof. vm_compute. reflexivity. Qed.

Lemma newer_note_text : Print newer_note = newer_note_printed.
Proof. vm_compute. reflexivity. Qed.

(** The note is printed neither by discovery nor by the formatting run. *)
Lemma note_not_discovery (w : World) (t : list event) :
  Forall (discovery_event w) t -> ~ In newer_note_printed t.
Proof.
  intros H Hin. rewrite Forall_forall in H. apply H in Hin.
  destruct Hin as [input_str Hin]. discriminate Hin.
Qed.

Lemma note_not_in_run_format (w : World) (files : list Path) :
  ~ In newer_note_printed (trace (run_format w files)).
Proof.
  rewrite run_format_cases. intros Hin.
  assert (Hq : ~ In newer_note_printed (trace (resolve_all w files))).
  { intros H. pose proof (resolve_all_events w files) as Hall.
    rewrite Forall_forall in Hall. apply Hall in H. discriminate H. }
  destruct (result (resolve_all w files)) as [resolved | e];
    cbn [trace fst] in Hin; [|contradiction].
  apply in_app_or in Hin as [Hin | [Hin | Hin]];
    [contradiction | discriminate Hin |].
  destruct (after_format_cases (process w (format_argv resolved)))
    as [Hall _].
  rewrite Forall_forall in Hall. apply Hall in Hin as [text Hin].
  discriminate Hin.
Qed.

Lemma note_not_in_discover_and_format (w : World) (paths : list str) :
  ~ In newer_note_printed (trace (discover_and_format w paths)).
Proof.
  rewrite discover_and_format_cases. intros Hin.
  pose proof (note_not_discovery w _ (discover_events w [] paths)) as Hd.
  destruct (result (discover w [] paths)) as [files | e];
    cbn [trace fst] in Hin; [|contradiction].
  apply in_app_or in Hin as [Hin | Hin]; [contradiction|].
  now apply note_not_in_run_format in Hin.
Qed.

(** A text without whitespace followed by whitespace only is one word. *)
Lemma split_trailing_space (a tail : str) :
  a <> [] -> has_space a = false -> forallb is_space tail = true ->
  split (a ++ tail) = [a].
Proof.
  intros Hne Ha. induction tail as [|c tail IH] using rev_ind.
  - intros _. rewrite app_nil_r. now apply split_word.
  - rewrite forallb_app. cbn [forallb]. rewrite andb_true_r.
    intros H. apply andb_true_iff in H as [Ht Hc].
    rewrite app_assoc.
    replace ((a ++ tail) ++ [c]) with ((a ++ tail) ++ c :: []) by reflexivity.
    rewrite split_app_space by exact Hc.
    rewrite (IH Ht). reflexivity.
Qed.

Lemma utf8_decode_empty (b : bytes) :
  nonempty b = false -> utf8_decode b = Some [].
Proof. destruct b; [reflexivity | discriminate]. Qed.

(** What is left of a text without its trailing whitespace is
    determined. *)
Lemma stripped_unique (text k1 k2 : str) :
  stripped text k1 -> stripped text k2 -> k1 = k2.
Proof.
  assert (Hend : forall (k k' l t' : str),
             k = k' ++ l -> forallb is_space (l ++ t') = true ->
             (forall x c, k = x ++ [c] -> is_space c = false) -> l = []).
  { intros k k' l t' Hk Hsp Hlast.
    destruct l as [|y l] using rev_ind; [reflexivity|].
    exfalso. rewrite forallb_app in Hsp.
    apply andb_true_iff in Hsp as [Hsp _].
    rewrite forallb_app in Hsp. apply andb_true_iff in Hsp as [_ Hy].
    cbn in Hy. rewrite andb_true_r in Hy.
    rewrite app_assoc in Hk. apply Hlast in Hk. congruence. }
  intros (t1 & E1 & S1 & L1) (t2 & E2 & S2 & L2).
  rewrite E1 in E2. apply app_eq_app in E2 as [l [[Hk Ht] | [Hk Ht]]].
  - rewrite Ht in S2. rewrite (Hend k1 k2 l t1 Hk S2 L1) in Hk.
    now rewrite app_nil_r in Hk.
  - rewrite Ht in S1. rewrite (Hend k2 k1 l t2 Hk S1 L2) in Hk.
    now rewrite app_nil_r in Hk.
Qed.

Lemma stripped_rstrip (text : str) : stripped text (rstrip text).
Proof. exact (rstrip_split text). Qed.
(* ===================================================================== *)
(** ** The version check *)
(* ===================================================================== *)

(** C4. For all version triples [(a, b, c)] and [(d, e, f)],
    [Version(a, b, c) < Version(d, e, f)] holds if and only if [(a, b, c)]
    is below [(d, e, f)] in lexicographic order: the major numbers are
    compared first, then the minor ones, then the patch levels.  (It holds
    for all integers, not only the non-negative ones.) *)
Theorem Version_lt_lexicographic (a b c d e f : Z) :
  Version_lt (mkVersion a b c) (mkVersion d e f) = true
  <-> lex_lt (a, b, c) (d, e, f).
Proof.
  unfold Version_lt, astuple, tuple3_lt, lex_lt. cbn [major minor patch].
  destruct (Z.eqb_spec a d) as [->|Had]; cbn [negb].
  - destruct (Z.eqb_spec b e) as [->|Hbe]; cbn [negb];
      rewrite Z.ltb_lt; lia.
  - rewrite Z.ltb_lt. lia.
Qed.

(** C5. Whenever the version parsed from the query is strictly below the
    required [Version(13, 0, 1)], the run prints two lines in red, the
    second of which reads [Requires version 13.0.1 but is a.b.c], where
    [a], [b] and [c] are decimal numerals of the major, minor and patch
    number of the parsed version, and returns -1; the version query is
    the only process it starts and it makes no file system query. *)
Theorem too_old_version_rejected (w : World) (paths : list str)
    (version : Version) :
  reports_version w version ->
  Version_lt version CLANG_FORMAT_VER_REQ = true ->
  (exists shown_version,
      names_version shown_version version
      /\ printed (trace (main w paths))
         = [[Colored (lit "ERROR: clang-format version is too old!") red];
            [Colored (lit "       Requires version 13.0.1 but is "
                      ++ shown_version) red]])
  /\ result (main w paths) = Ok (-1)%Z
  /\ filter is_discovery (trace (main w paths)) = []
  /\ spawned (trace (main w paths)) = [version_cmd].
Proof.
  intros Hv Hlt. rewrite (main_too_old w paths version Hv Hlt).
  split; [|repeat split].
  exists (Version_repr version).
  split; [now apply reports_version_names with w|].
  cbn [trace fst printed flat_map app]. now rewrite too_old_line.
Qed.

Lemma too_old_version_rejected_witness :
  reports_version (world_version "clang-format version 12.9.9")
                  (mkVersion 12 9 9)
  /\ Version_lt (mkVersion 12 9 9) CLANG_FORMAT_VER_REQ = true
  /\ names_version (lit "12.9.9") (mkVersion 12 9 9)
  /\ printed (trace (main (world_version "clang-format version 12.9.9")
                          [lit "d"]))
     = [[Colored (lit "ERROR: clang-format version is too old!") red];
        [Colored (lit "       Requires version 13.0.1 but is 12.9.9") red]]
  /\ result (main (world_version "clang-format version 12.9.9") [lit "d"])
     = Ok (-1)%Z
  /\ spawned (trace (main (world_version "clang-format version 12.9.9")
                          [lit "d"]))
     = [version_cmd].
Proof.
  assert (H : reports_version (world_version "clang-format version 12.9.9")
                              (mkVersion 12 9 9))
    by (apply reports_sample_version; vm_compute; reflexivity).
  split; [exact H|]. split; [reflexivity|].
  destruct (too_old_version_rejected
              (world_version "clang-format version 12.9.9") [lit "d"]
              (mkVersion 12 9 9) H eq_refl) as (_ & Hr & _ & Hs).
  split; [|split; [vm_compute; reflexivity | split; [exact Hr | exact Hs]]].
  exists (lit "12"), (lit "9"), (lit "9"). repeat split.
Defined.

(** C6. When a version was parsed from the query, the note [NOTE: Major
    version used is greater than tested (13), might behave differently.]
    is printed, in yellow, if and only if the parsed major number strictly
    exceeds the required one, 13.  The note does not stop the run: after
    it come the discovery of files and the formatting run, whose outcome
    is the outcome of the run; when discovery and the resolving of the
    files found complete, the formatting command is started, after the
    note. *)
Theorem newer_version_noted (w : World) (paths : list str)
    (version : Version) :
  reports_version w version ->
  (In newer_note_printed (trace (main w paths))
   <-> (major version > major CLANG_FORMAT_VER_REQ)%Z)
  /\ ((major version > major CLANG_FORMAT_VER_REQ)%Z ->
      (exists shown_version,
          names_version shown_version version
          /\ trace (main w paths)
             = [Spawn version_cmd;
                Print [Plain (lit "Using clang-format version "
                              ++ shown_version)];
                newer_note_printed]
               ++ trace (discover_and_format w paths))
      /\ result (main w paths) = result (discover_and_format w paths)
      /\ (forall files resolved,
             result (discover w [] paths) = Ok files ->
             result (resolve_all w files) = Ok resolved ->
             exists shown_version after,
               trace (main w paths)
               = [Spawn version_cmd;
                  Print [Plain (lit "Using clang-format version "
                                ++ shown_version)];
                  newer_note_printed]
                 ++ trace (discover w [] paths)
                 ++ map Resolve files
                 ++ Spawn (format_argv resolved) :: after)).
Proof.
  intros Hv. change (major CLANG_FORMAT_VER_REQ) with 13%Z. split.
  - destruct (Version_lt version CLANG_FORMAT_VER_REQ) eqn:Hlt.
    + rewrite (main_too_old w paths version Hv Hlt).
      pose proof (too_old_major version Hlt). cbn [trace fst In].
      split; [intuition discriminate | lia].
    + rewrite (main_accepted w paths version Hv Hlt).
      unfold accepted_report. change (major CLANG_FORMAT_VER_REQ) with 13%Z.
      cbn [trace fst]. destruct (Z.gtb_spec (major version) 13) as [Hgt|Hle].
      * split; [lia|]. intros _. right. right. left. apply newer_note_text.
      * split; [|lia]. cbn [In app].
        intros [H | [H | H]]; try discriminate.
        now apply note_not_in_discover_and_format in H.
  - intros Hgt.
    pose proof (newer_major_accepted version Hgt) as Hlt.
    assert (Hgt' : (major version >? major CLANG_FORMAT_VER_REQ)%Z = true)
      by now apply Z.gtb_gt.
    split; [|split].
    + exists (Version_repr version).
      split; [now apply reports_version_names with w|].
      rewrite (main_accepted w paths version Hv Hlt).
      unfold accepted_report. rewrite Hgt', newer_note_text. reflexivity.
    + now rewrite (main_accepted w paths version Hv Hlt).
    + intros files resolved Hd Hr.
      exists (Version_repr version),
             (trace (after_format (process w (format_argv resolved)))).
      rewrite (main_formats w paths version files resolved Hv Hlt Hd Hr).
      unfold accepted_report. rewrite Hgt', newer_note_text. reflexivity.
Qed.

Lemma newer_version_noted_witness :
  reports_version (world_version "clang-format version 14.0.0")
                  (mkVersion 14 0 0)
  /\ In newer_note_printed
        (trace (main (world_version "clang-format version 14.0.0")
                     [lit "d"]))
  /\ result (main (world_version "clang-format version 14.0.0") [lit "d"])
     = Ok 0%Z
  /\ spawned (trace (main (world_version "clang-format version 14.0.0")
                          [lit "d"]))
     = [version_cmd; base_argv ++ [lit "/work/d/a.c"; lit "/work/d/b.h"]].
Proof.
  assert (H : reports_version (world_version "clang-format version 14.0.0")
                              (mkVersion 14 0 0))
    by (apply reports_sample_version; vm_compute; reflexivity).
  split; [exact H|].
  destruct (newer_version_noted
              (world_version "clang-format version 14.0.0") [lit "d"]
              (mkVersion 14 0 0) H) as [Hiff Hrun].
  split; [|split].
  - apply Hiff. reflexivity.
  - destruct (Hrun eq_refl) as (_ & Hr & _). rewrite Hr.
    vm_compute. reflexivity.
  - vm_compute. reflexivity.
Defined.

(** C1, as the code has it.  If the version query exits with a non-zero
    status, the run prints one line and returns -1.  If the process cannot
    be started, the error is not caught: it leaves [main] as an exception,
    nothing is printed by the script and there is no return value.  In
    both cases the version query is the only process started and no file
    system query is made. *)
Theorem version_query_failure (w : World) (paths : list str) :
  version_query_fails w ->
  (forall rc out err,
      process w version_cmd = Exited rc out err ->
      exists line,
        trace (main w paths) = [Spawn version_cmd; Print [Plain line]]
        /\ result (main w paths) = Ok (-1)%Z)
  /\ (forall reason,
         process w version_cmd = NotStarted reason ->
         main w paths = ([Spawn version_cmd], Raise (OSError reason)))
  /\ filter is_discovery (trace (main w paths)) = []
  /\ spawned (trace (main w paths)) = [version_cmd].
Proof.
  unfold version_query_fails, main, run_version_query, subprocess_run.
  destruct (process w version_cmd) as [reason | rc out err].
  - intros _. cbn. repeat split; try discriminate.
    now intros reason' [= ->].
  - intros Hrc. apply Z.eqb_neq in Hrc. rewrite Hrc. cbn.
    repeat split; try discriminate.
    intros rc' out' err' [= <- <- <-]. now eexists.
Qed.

Lemma version_query_failure_witness :
  version_query_fails world_query_fails
  /\ result (main world_query_fails [lit "d"]) = Ok (-1)%Z
  /\ spawned (trace (main world_query_fails [lit "d"])) = [version_cmd].
Proof.
  assert (H : version_query_fails world_query_fails)
    by (vm_compute; discriminate).
  split; [exact H|].
  destruct (version_query_failure world_query_fails [lit "d"] H)
    as (Hexit & _ & _ & Hs).
  destruct (Hexit 1%Z [] (bytes_of "boom") eq_refl) as (line & _ & Hr).
  split; [exact Hr | exact Hs].
Defined.

(** C1, as stated, fails in two ways.  Where [clang-format] cannot be
    started, the run ends in an exception and not with -1.  Where the
    query exits with status 1 and [boom] on its error stream, the one line
    printed is not [boom]. *)
Lemma version_query_failure_as_stated_fails :
  (version_query_fails world_not_installed
   /\ ~ failure_reported world_not_installed [lit "d"])
  /\ (version_query_fails world_query_fails
      /\ ~ failure_reported world_query_fails [lit "d"]
      /\ printed (trace (main world_query_fails [lit "d"]))
         = [[Plain (lit "Command '['clang-format', '--version']' returned non-zero exit status 1.")]]).
Proof.
  split; [split | split; [|split]].
  - exact I.
  - intros (text & _ & _ & Hr & _). vm_compute in Hr. discriminate.
  - vm_compute. discriminate.
  - intros (text & Hd & Hp & _). vm_compute in Hd. injection Hd as <-.
    vm_compute in Hp. discriminate.
  - vm_compute. reflexivity.
Qed.

(** C2, where the code departs from it.  The dots of the pattern are not
    escaped, so each stands for any character but a line feed: the output
    [clang-format version 13x0y1], which holds no dot-separated version,
    passes the assertion, is read as [Version(13, 0, 1)], and the run goes
    on to format. *)
Theorem version_pattern_dot_is_wildcard :
  parse_version (world_version "clang-format version 13x0y1")
                (lit "clang-format version 13x0y1")
  = Ok (mkVersion 13 0 1)
  /\ ~ dotted_shape (is_digit (world_version "clang-format version 13x0y1"))
                    (lit "clang-format version 13x0y1")
  /\ result (main (world_version "clang-format version 13x0y1") [lit "d"])
     = Ok 0%Z.
Proof.
  split; [vm_compute; reflexivity|]. split; [|vm_compute; reflexivity].
  intros H. apply search_dotted_shape in H as [m H].
  vm_compute in H. discriminate.
Qed.

(* ===================================================================== *)
(** ** File discovery, argument by argument *)
(* ===================================================================== *)



(** The example of the specification: a directory holding [a.c], [b.h] and
    [c.txt], followed by a path that does not exist, yields [a.c] and [b.h]
    in that order, and a warning. *)
Example discover_sample_directory :
  discover world_13_0_1 [] [lit "d"; lit "d/missing"]
  = ([Exists (lit "d"); IsDir (lit "d"); IsDir (lit "d");
      Glob (lit "d") (Recursive (lit ".c"));
      Glob (lit "d") (Recursive (lit ".h"));
      Exists (lit "d/missing");
      Print [Colored (lit "WARN:") yellow;
             Plain (lit "d/missing doesn't exist or is not file or dir, ignoring")]],
     Ok [lit "d/a.c"; lit "d/b.h"]).
Proof. vm_compute. reflexivity. Qed.




(** C8. A path argument that is an existing regular file is appended to
    the files found so far as the path made from it, whatever its name:
    nothing is listed and no ending is tested. *)
Theorem file_argument_kept (w : World) (globbed_files : list Path)
    (input_str : str) :
  fs_exists w (Path_of w input_str) = Answer true ->
  fs_is_file w (Path_of w input_str) = Answer true ->
  fs_is_dir w (Path_of w input_str) = Answer false ->
  discover_one w globbed_files input_str
  = ([Exists (Path_of w input_str); IsDir (Path_of w input_str);
      IsFile (Path_of w input_str); IsDir (Path_of w input_str);
      IsFile (Path_of w input_str)],
     Ok (globbed_files ++ [Path_of w input_str])).
Proof. apply discover_one_file. Qed.

Lemma file_argument_kept_witness :
  fs_exists world_13_0_1 (Path_of world_13_0_1 (lit "weird.txt"))
  = Answer true
  /\ fs_is_file world_13_0_1 (Path_of world_13_0_1 (lit "weird.txt"))
     = Answer true
  /\ fs_is_dir world_13_0_1 (Path_of world_13_0_1 (lit "weird.txt"))
     = Answer false
  /\ result (discover_one world_13_0_1 [lit "d/a.c"] (lit "weird.txt"))
     = Ok [lit "d/a.c"; lit "weird.txt"].
Proof.
  repeat (split; [reflexivity|]).
  rewrite (file_argument_kept world_13_0_1 [lit "d/a.c"] (lit "weird.txt")
             eq_refl eq_refl eq_refl).
  reflexivity.
Defined.

(* ===================================================================== *)
(** ** The formatting run *)
(* ===================================================================== *)

(** C9, as the code has it.  In a run whose version check passed and whose
    discovery and resolving of files completed: if the formatting process
    exits with a non-zero status and its error stream holds UTF-8 text,
    that text is printed and the run returns -1; if the error stream is
    not UTF-8, nothing is printed for it and the run ends in a
    [UnicodeDecodeError].  If the process exits with status 0 and its
    streams hold UTF-8 text, each stream that is not empty is printed
    without its trailing whitespace, the output stream first, and the run
    returns 0; if a stream is not UTF-8, the run ends in a
    [UnicodeDecodeError]. *)
Theorem format_outcome_reported (w : World) (paths : list str)
    (version : Version) (files : list Path) (resolved : list str)
    (rc : Z) (out err : bytes) :
  reports_version w version ->
  Version_lt version CLANG_FORMAT_VER_REQ = false ->
  result (discover w [] paths) = Ok files ->
  result (resolve_all w files) = Ok resolved ->
  process w (format_argv resolved) = Exited rc out err ->
  (rc <> 0%Z ->
   (forall terr,
       utf8_decode err = Some terr ->
       main w paths
       = (Spawn version_cmd :: accepted_report version
            ++ trace (discover w [] paths)
            ++ map Resolve files
            ++ [Spawn (format_argv resolved); Print [Plain terr]],
          Ok (-1)%Z))
   /\ (utf8_decode err = None ->
       main w paths
       = (Spawn version_cmd :: accepted_report version
            ++ trace (discover w [] paths)
            ++ map Resolve files
            ++ [Spawn (format_argv resolved)],
          Raise UnicodeDecodeError)))
  /\ (rc = 0%Z ->
      (forall tout terr,
          utf8_decode out = Some tout ->
          utf8_decode err = Some terr ->
          exists kept_out kept_err,
            stripped tout kept_out
            /\ stripped terr kept_err
            /\ main w paths
               = (Spawn version_cmd :: accepted_report version
                    ++ trace (discover w [] paths)
                    ++ map Resolve files
                    ++ Spawn (format_argv resolved)
                    :: shown out kept_out ++ shown err kept_err,
                  Ok 0%Z))
      /\ (utf8_decode out = None \/ utf8_decode err = None ->
          result (main w paths) = Raise UnicodeDecodeError)).
Proof.
  intros Hv Hlt Hd Hr Hp.
  rewrite (main_formats w paths version files resolved Hv Hlt Hd Hr), Hp.
  unfold after_format. split.
  - intros Hrc. apply Z.eqb_neq in Hrc. rewrite Hrc. unfold decode. split.
    + intros terr ->. reflexivity.
    + intros ->. reflexivity.
  - intros ->. cbn [Z.eqb]. unfold print_if_any, decode, shown. split.
    + intros tout terr -> ->.
      exists (rstrip tout), (rstrip terr).
      split; [apply stripped_rstrip|]. split; [apply stripped_rstrip|].
      destruct (nonempty out), (nonempty err); reflexivity.
    + destruct (nonempty out) eqn:No.
      * destruct (utf8_decode out) as [tout|]; [|reflexivity].
        intros [H | H]; [discriminate|].
        destruct (nonempty err) eqn:Ne.
        -- now rewrite H.
        -- rewrite (utf8_decode_empty err Ne) in H. discriminate.
      * rewrite (utf8_decode_empty out No).
        intros [H | H]; [discriminate|].
        destruct (nonempty err) eqn:Ne.
        -- now rewrite H.
        -- rewrite (utf8_decode_empty err Ne) in H. discriminate.
Qed.

Lemma format_outcome_reported_witness :
  (reports_version world_format_fails (mkVersion 13 0 1)
   /\ Version_lt (mkVersion 13 0 1) CLANG_FORMAT_VER_REQ = false
   /\ result (discover world_format_fails [] [lit "d"])
      = Ok [lit "d/a.c"; lit "d/b.h"]
   /\ result (resolve_all world_format_fails [lit "d/a.c"; lit "d/b.h"])
      = Ok [lit "/work/d/a.c"; lit "/work/d/b.h"]
   /\ process world_format_fails
              (format_argv [lit "/work/d/a.c"; lit "/work/d/b.h"])
      = Exited 1 [] (bytes_of "error: unknown key")
   /\ result (main world_format_fails [lit "d"]) = Ok (-1)%Z
   /\ printed (trace (main world_format_fails [lit "d"]))
      = [[Plain (lit "Using clang-format version 13.0.1")];
         [Plain (lit "error: unknown key")]])
  /\ (reports_version world_format_talks (mkVersion 14 0 6)
      /\ process world_format_talks (format_argv [lit "/work/weird.txt"])
         = Exited 0 (bytes_of "Formatting d/a.c  ") (bytes_of "done ")
      /\ stripped (lit "Formatting d/a.c  ") (lit "Formatting d/a.c")
      /\ stripped (lit "done ") (lit "done")
      /\ result (main world_format_talks [lit "weird.txt"]) = Ok 0%Z
      /\ printed (trace (main world_format_talks [lit "weird.txt"]))
         = [[Plain (lit "Using clang-format version 14.0.6")];
            [Colored (lit "NOTE: Major version used is greater than tested (13), might behave differently.") yellow];
            [Plain (lit "Formatting d/a.c")];
            [Plain (lit "done")]]).
Proof.
  assert (H : reports_version world_format_fails (mkVersion 13 0 1))
    by (apply reports_sample_version; vm_compute; reflexivity).
  assert (H' : reports_version world_format_talks (mkVersion 14 0 6))
    by (apply reports_sample_version; vm_compute; reflexivity).
  assert (S1 : stripped (lit "Formatting d/a.c  ") (lit "Formatting d/a.c"))
    by apply (stripped_rstrip (lit "Formatting d/a.c  ")).
  assert (S2 : stripped (lit "done ") (lit "done"))
    by apply (stripped_rstrip (lit "done ")).
  split.
  - split; [exact H|]. do 4 (split; [reflexivity|]).
    destruct (format_outcome_reported world_format_fails [lit "d"]
                (mkVersion 13 0 1) [lit "d/a.c"; lit "d/b.h"]
                [lit "/work/d/a.c"; lit "/work/d/b.h"]
                1%Z [] (bytes_of "error: unknown key")
                H eq_refl eq_refl eq_refl eq_refl) as [Hfail _].
    destruct (Hfail ltac:(discriminate)) as [Hprint _].
    rewrite (Hprint (lit "error: unknown key") eq_refl).
    split; vm_compute; reflexivity.
  - split; [exact H'|]. split; [reflexivity|].
    split; [exact S1|]. split; [exact S2|].
    destruct (format_outcome_reported world_format_talks [lit "weird.txt"]
                (mkVersion 14 0 6) [lit "weird.txt"]
                [lit "/work/weird.txt"]
                0%Z (bytes_of "Formatting d/a.c  ") (bytes_of "done ")
                H' eq_refl eq_refl eq_refl eq_refl) as [_ Hok].
    destruct (Hok eq_refl) as [Hshow _].
    destruct (Hshow (lit "Formatting d/a.c  ") (lit "done ")
                    eq_refl eq_refl)
      as (kept_out & kept_err & K1 & K2 & Hmain).
    rewrite (stripped_unique _ _ _ K1 S1) in Hmain.
    rewrite (stripped_unique _ _ _ K2 S2) in Hmain.
    rewrite Hmain. split; vm_compute; reflexivity.
Defined.

(** C9, as stated, fails where the formatting process exits with a
    non-zero status and its error stream is not UTF-8 text: decoding the
    stream raises, so nothing of it is printed and the run ends in a
    [UnicodeDecodeError], not with -1. *)
Lemma undecodable_error_text_not_reported :
  process world_binary_errors
          (base_argv ++ [lit "/work/d/a.c"; lit "/work/d/b.h"])
  = Exited 1 [] [Byte.xff]
  /\ utf8_decode [Byte.xff] = None
  /\ spawned (trace (main world_binary_errors [lit "d"]))
     = [version_cmd; base_argv ++ [lit "/work/d/a.c"; lit "/work/d/b.h"]]
  /\ printed (trace (main world_binary_errors [lit "d"]))
     = [[Plain (lit "Using clang-format version 13.0.1")]]
  /\ result (main world_binary_errors [lit "d"]) = Raise UnicodeDecodeError.
Proof. repeat split; vm_compute; reflexivity. Qed.

(** A formatting run that exits with status 0: its output is printed
    without the trailing whitespace. *)
Example format_success_sample :
  main world_format_talks [lit "weird.txt"]
  = ([Spawn version_cmd;
      Print [Plain (lit "Using clang-format version 14.0.6")];
      newer_note_printed;
      Exists (lit "weird.txt"); IsDir (lit "weird.txt");
      IsFile (lit "weird.txt"); IsDir (lit "weird.txt");
      IsFile (lit "weird.txt");
      Resolve (lit "weird.txt");
      Spawn (base_argv ++ [lit "/work/weird.txt"]);
      Print [Plain (lit "Formatting d/a.c")];
      Print [Plain (lit "done")]],
     Ok 0%Z).
Proof. vm_compute. reflexivity. Qed.

(** C10, as the code has it.  The arguments of the formatting process are
    the words of the command line, which is [clang-format -i --verbose]
    followed by the resolved paths joined by spaces.  They are the three
    fixed arguments followed, for each resolved path in order, by the
    words of that path.  When no resolved path holds whitespace (and none
    is empty, as resolved paths are absolute), they are the three fixed
    arguments followed by the resolved paths.  A resolved path that holds
    whitespace is never passed as one argument: its place is taken by its
    words, none of which holds whitespace; there are two or more of them
    when whitespace stands between two other characters, and there is one,
    the path without its end, when all its whitespace is at its end. *)
Theorem format_arguments (w : World) (files : list Path)
    (resolved : list str) :
  result (resolve_all w files) = Ok resolved ->
  Forall2 (fun f r => fs_resolve w f = Resolved r) files resolved
  /\ (exists t, trace (run_format w files)
                = map Resolve files ++ Spawn (format_argv resolved) :: t)
  /\ format_argv resolved
     = split (lit "clang-format -i --verbose " ++ join (lit " ") resolved)
  /\ format_argv resolved = base_argv ++ flat_map split resolved
  /\ (Forall (fun p => p <> [] /\ has_space p = false) resolved ->
      format_argv resolved = base_argv ++ resolved)
  /\ (forall p, has_space p = true ->
                ~ In p (format_argv resolved)
                /\ split p <> [p]
                /\ Forall (fun f => f <> [] /\ has_space f = false) (split p))
  /\ (forall a c b,
         is_space c = true ->
         existsb (fun x => negb (is_space x)) a = true ->
         existsb (fun x => negb (is_space x)) b = true ->
         2 <= List.length (split (a ++ c :: b)))
  /\ (forall a tail,
         a <> [] -> has_space a = false -> forallb is_space tail = true ->
         split (a ++ tail) = [a]).
Proof.
  intros Hr.
  assert (Hargv : format_argv resolved = base_argv ++ flat_map split resolved)
    by apply split_clang_format_cmd.
  split; [|split; [|split; [reflexivity|split; [exact Hargv|]]]].
  - destruct (resolve_all_cases w files)
      as [(r & Hrun & Hall) | (b & f & a & reason & _ & _ & Hrun)];
      rewrite Hrun in Hr; cbn [result snd] in Hr; [|discriminate].
    now injection Hr as <-.
  - rewrite run_format_cases, Hr, (resolve_all_ok w files resolved Hr).
    cbn [trace fst]. now eexists.
  - split; [|split; [|split]].
    + intros H. rewrite Hargv. now rewrite flat_map_split_words.
    + intros p Hp. split; [|split].
      * intros Hin.
        pose proof (split_clean (clang_format_cmd resolved)) as Hc.
        rewrite Forall_forall in Hc. destruct (Hc p Hin) as [_ Hn].
        congruence.
      * intros Heq. apply (split_not_self p Hp). rewrite Heq. now left.
      * apply split_clean.
    + intros a c b Hc Ha Hb. rewrite split_app_space by exact Hc.
      apply split_nonblank in Ha, Hb. rewrite length_app.
      destruct (split a); [contradiction|].
      destruct (split b); [contradiction|].
      cbn. lia.
    + apply split_trailing_space.
Qed.

Lemma format_arguments_witness :
  result (resolve_all world_13_0_1 [lit "d/a.c"; lit "weird.txt"])
  = Ok [lit "/work/d/a.c"; lit "/work/weird.txt"]
  /\ format_argv [lit "/work/d/a.c"; lit "/work/weird.txt"]
     = base_argv ++ [lit "/work/d/a.c"; lit "/work/weird.txt"]
  /\ 2 <= List.length (split (lit "/work/my file.c"))
  /\ split (lit "/work/x ") = [lit "/work/x"].
Proof.
  split; [reflexivity|].
  destruct (format_arguments world_13_0_1 [lit "d/a.c"; lit "weird.txt"]
              [lit "/work/d/a.c"; lit "/work/weird.txt"] eq_refl)
    as (_ & _ & _ & _ & Hplain & _ & Hinner & Hend).
  split; [|split].
  - apply Hplain. repeat constructor; discriminate.
  - apply (Hinner (lit "/work/my") 32%N (lit "file.c")); reflexivity.
  - apply (Hend (lit "/work/x") [32%N]); [discriminate | reflexivity..].
Defined.

(** C10, as stated, fails for a path whose whitespace is all at its end:
    the file [x ] resolves to [/work/x ], which reaches the process as the
    single argument [/work/x]. *)
Lemma trailing_space_path_one_fragment :
  result (resolve_all world_spaces [lit "x "]) = Ok [lit "/work/x "]
  /\ has_space (lit "/work/x ") = true
  /\ spawned (trace (main world_spaces [lit "x "]))
     = [version_cmd; base_argv ++ [lit "/work/x"]]
  /\ ~ passed_as_several (lit "/work/x ").
Proof.
  split; [reflexivity|]. split; [reflexivity|].
  split; [vm_compute; reflexivity|].
  intros (fragments & Heq & Hlen).
  change (base_argv ++ [lit "/work/x"] = base_argv ++ fragments) in Heq.
  apply app_inv_head in Heq. subst fragments. cbn in Hlen. lia.
Qed.

(** A path with a space inside reaches the process in two pieces. *)
Example inner_space_path_two_fragments :
  spawned (trace (main world_spaces [lit "my file.c"]))
  = [version_cmd; base_argv ++ [lit "/work/my"; lit "file.c"]].
Proof. vm_compute. reflexivity. Qed.
(* ===================================================================== *)
(** ** Further properties of the version check *)
(* ===================================================================== *)

Lemma py_int_within_limit (w : World) (d : str) :
  digits (is_digit w) d -> within_digit_limit w d ->
  exists n, py_int w d = Ok n.
Proof.
  intros [Hne Hd] Hlim. unfold py_int.
  assert (Hok : (0 <? int_max_str_digits w)
                && (int_max_str_digits w <? List.length d) = false).
  { apply andb_false_iff. destruct Hlim as [H0 | Hle].
    - left. rewrite H0. reflexivity.
    - right. apply Nat.ltb_ge. exact Hle. }
  rewrite Hok. destruct d as [|c d]; [contradiction|].
  destruct (digits_value_total w (c :: d) 0 Hd) as [n ->].
  now exists (Z.of_N n).
Qed.

(** A text in which the pattern is found is parsed, where none of its
    runs of digits is longer than the digit limit of [int]. *)
Lemma parse_version_within_limit (w : World) (text : str) :
  version_shape (is_digit w) text ->
  digit_runs_within_limit w text ->
  exists version, parse_version w text = Ok version.
Proof.
  intros Hs Hlim. apply search_version_shape in Hs as [m Hm].
  unfold parse_version. rewrite Hm.
  apply re_search_sound in Hm as (pre & s & rest & Htext & H).
  apply matches_version_regex in H
    as (d1 & c1 & d2 & c2 & d3 & Hshape & -> & D1 & _ & D2 & _ & D3).
  unfold int_group. cbn [group String.eqb Ascii.eqb Bool.eqb].
  assert (L1 : within_digit_limit w d1).
  { apply (Hlim (pre ++ lit "clang-format version ") d1
                (c1 :: d2 ++ c2 :: d3 ++ rest)); [|apply D1].
    rewrite Htext, Hshape. now rewrite <- !app_assoc. }
  assert (L2 : within_digit_limit w d2).
  { apply (Hlim (pre ++ lit "clang-format version " ++ d1 ++ [c1]) d2
                (c2 :: d3 ++ rest)); [|apply D2].
    rewrite Htext, Hshape. now rewrite <- !app_assoc. }
  assert (L3 : within_digit_limit w d3).
  { apply (Hlim (pre ++ lit "clang-format version " ++ d1 ++ c1 :: d2
                     ++ [c2]) d3 rest); [|apply D3].
    rewrite Htext, Hshape. rewrite <- !app_assoc. cbn [app].
    now rewrite <- !app_assoc. }
  destruct (py_int_within_limit w d1 D1 L1) as [n1 ->].
  destruct (py_int_within_limit w d2 D2 L2) as [n2 ->].
  destruct (py_int_within_limit w d3 D3 L3) as [n3 ->].
  now eexists.
Qed.

(** An output that holds the phrase followed by three dot-separated
    integers always passes the assertion of line 53.  A version is parsed
    from it whenever it holds no run of decimal digits longer than the
    digit limit of [int]; if [int] refuses one of the integers, the run
    ends in a [ValueError]. *)
Theorem dotted_version_passes_assertion (w : World) (text : str) :
  dotted_shape (is_digit w) text ->
  ((exists version, parse_version w text = Ok version)
   \/ parse_version w text = Raise ValueError)
  /\ (digit_runs_within_limit w text ->
      exists version, parse_version w text = Ok version).
Proof.
  intros H. apply dotted_shape_version_shape in H. split.
  - now apply parse_version_shape.
  - now apply parse_version_within_limit.
Qed.

Lemma dotted_version_passes_assertion_witness :
  dotted_shape (is_digit world_13_0_1)
               (lit "Ubuntu clang-format version 14.0.0-1ubuntu1")
  /\ parse_version world_13_0_1
       (lit "Ubuntu clang-format version 14.0.0-1ubuntu1")
     = Ok (mkVersion 14 0 0).
Proof.
  assert (H : dotted_shape (is_digit world_13_0_1)
                (lit "Ubuntu clang-format version 14.0.0-1ubuntu1")).
  { exists (lit "Ubuntu "), (lit "14"), (lit "0"), (lit "0"),
           (lit "-1ubuntu1").
    repeat split; try reflexivity; discriminate. }
  split; [exact H|].
  destruct (dotted_version_passes_assertion world_13_0_1 _ H) as [_ Hparse].
  destruct Hparse as [version Hv].
  - intros before d after Htext _. right.
    apply (f_equal (@List.length _)) in Htext.
    rewrite !length_app in Htext.
    change (int_max_str_digits world_13_0_1) with 4300.
    assert (Hlen : List.length
                     (lit "Ubuntu clang-format version 14.0.0-1ubuntu1")
                   <= 4300) by now apply Nat.leb_le.
    lia.
  - rewrite Hv. vm_compute in Hv. symmetry. exact Hv.
Defined.

(** With the required minimum 13.0.1, the version 13.0.1 is accepted and
    no note is printed. *)
Example required_version_accepted_quietly :
  printed (trace (main world_13_0_1 [lit "weird.txt"]))
  = [[Plain (lit "Using clang-format version 13.0.1")]]
  /\ spawned (trace (main world_13_0_1 [lit "weird.txt"]))
     = [version_cmd; base_argv ++ [lit "/work/weird.txt"]]
  /\ result (main world_13_0_1 [lit "weird.txt"]) = Ok 0%Z.
Proof. repeat split; vm_compute; reflexivity. Qed.

(** An output in which the pattern is not found stops the run with the
    assertion error, before anything is printed. *)
Theorem unexpected_version_output_is_fatal (w : World) (paths : list str)
    (out err : bytes) (text : str) :
  process w version_cmd = Exited 0 out err ->
  utf8_decode out = Some text ->
  ~ version_shape (is_digit w) text ->
  main w paths
  = ([Spawn version_cmd],
     Raise (AssertionError (lit "Incorrect clang-format version output?"))).
Proof.
  intros Hp Hd Hs. apply parse_version_assertion in Hs.
  unfold main, run_version_query, subprocess_run. rewrite Hp.
  cbn. unfold decode. rewrite Hd. cbn. rewrite Hs. reflexivity.
Qed.

Lemma unexpected_version_output_is_fatal_witness :
  ~ version_shape (is_digit (world_version "clang version 13.0.1"))
                  (lit "clang version 13.0.1")
  /\ result (main (world_version "clang version 13.0.1") [lit "d"])
     = Raise (AssertionError (lit "Incorrect clang-format version output?")).
Proof.
  assert (H : ~ version_shape (is_digit (world_version "clang version 13.0.1"))
                              (lit "clang version 13.0.1")).
  { intros H. apply search_version_shape in H as [m H].
    vm_compute in H. discriminate. }
  split; [exact H|].
  rewrite (unexpected_version_output_is_fatal
             (world_version "clang version 13.0.1") [lit "d"]
             (bytes_of "clang version 13.0.1") [] (lit "clang version 13.0.1")
             eq_refl eq_refl H).
  reflexivity.
Defined.

(** The assertion of line 53 fails exactly when the output holds no
    occurrence of the phrase followed by three runs of decimal digits with
    one character other than a line feed between them; the separators
    need not be dots. *)
Theorem assertion_fails_without_version_shape (w : World) (text : str) :
  parse_version w text
  = Raise (AssertionError (lit "Incorrect clang-format version output?"))
  <-> ~ version_shape (is_digit w) text.
Proof. exact (parse_version_assertion w text). Qed.

(* ===================================================================== *)
(** ** The run as a whole *)
(* ===================================================================== *)

Section WholeRun.

Variable w : World.

(** A run of discovery and formatting that returns has found its files,
    resolved them and seen the formatting process end. *)
Lemma discover_and_format_ok (paths : list str) (code : Z) :
  result (discover_and_format w paths) = Ok code ->
  exists files resolved,
    result (discover w [] paths) = Ok files
    /\ result (resolve_all w files) = Ok resolved
    /\ result (after_format (process w (format_argv resolved))) = Ok code.
Proof.
  rewrite discover_and_format_cases.
  destruct (result (discover w [] paths)) as [files | e] eqn:Hd;
    [|discriminate].
  cbn [result snd]. rewrite run_format_cases.
  destruct (result (resolve_all w files)) as [resolved | e] eqn:Hr;
    [|discriminate].
  cbn [result snd]. intros H. now exists files, resolved.
Qed.

(** The exceptions discovery and formatting can end in. *)
Lemma discover_and_format_raises (paths : list str) (e : exn) :
  result (discover_and_format w paths) = Raise e ->
  (exists reason, e = OSError reason)
  \/ (exists reason, e = RuntimeError reason)
  \/ e = UnicodeDecodeError.
Proof.
  rewrite discover_and_format_cases.
  destruct (result (discover w [] paths)) as [files | e'] eqn:Hd.
  - cbn [result snd]. rewrite run_format_cases.
    destruct (result (resolve_all w files)) as [resolved | e''] eqn:Hr.
    + cbn [result snd].
      destruct (after_format_cases (process w (format_argv resolved)))
        as [_ [(code & -> & _) | [(reason & -> & _) | [-> _]]]];
        [discriminate | |].
      * intros [= <-]. left. now exists reason.
      * intros [= <-]. now right; right.
    + cbn [result snd]. intros [= <-].
      apply resolve_all_raises in Hr. now right; left.
  - cbn [result snd]. intros [= <-].
    apply discover_raises in Hd. now left.
Qed.

(** The processes of a run that passed the version check, found its
    files and resolved them. *)
Lemma main_formats_split (paths : list str) (files : list Path)
    (resolved : list str) :
  version_accepted w ->
  result (discover w [] paths) = Ok files ->
  result (resolve_all w files) = Ok resolved ->
  spawned (trace (main w paths)) = [version_cmd; format_argv resolved]
  /\ exists before after,
       trace (main w paths)
       = Spawn version_cmd :: before
         ++ Spawn (format_argv resolved) :: after
       /\ spawned before = []
       /\ spawned after = []
       /\ filter is_discovery after = [].
Proof.
  intros (version & Hv & Hlt) Hd Hr.
  rewrite (main_formats w paths version files resolved Hv Hlt Hd Hr).
  cbn [trace fst].
  destruct (after_format_cases (process w (format_argv resolved)))
    as [Hprints _].
  apply spawned_prints in Hprints as [Hs Hq].
  assert (Hbefore : spawned (accepted_report version
                             ++ trace (discover w [] paths)
                             ++ map Resolve files) = []).
  { rewrite !spawned_app, spawned_accepted_report.
    rewrite (spawned_discovery w _ (discover_events w [] paths)).
    now rewrite spawned_resolves. }
  split.
  - cbn [spawned]. rewrite !app_assoc, spawned_app.
    rewrite <- !app_assoc, Hbefore. cbn [app spawned]. now rewrite Hs.
  - exists (accepted_report version ++ trace (discover w [] paths)
            ++ map Resolve files),
           (trace (after_format (process w (format_argv resolved)))).
    rewrite <- !app_assoc. now repeat split.
Qed.

(** A run that passed the version check and whose discovery or resolving
    ends in an exception starts no formatting. *)
Lemma main_stops_before_format (paths : list str) (e : exn) :
  version_accepted w ->
  (result (discover w [] paths) = Raise e
   \/ exists files, result (discover w [] paths) = Ok files
                    /\ result (resolve_all w files) = Raise e) ->
  spawned (trace (main w paths)) = [version_cmd]
  /\ result (main w paths) = Raise e.
Proof.
  intros (version & Hv & Hlt) H.
  rewrite (main_accepted w paths version Hv Hlt).
  cbn [trace result fst snd spawned].
  rewrite spawned_app, spawned_accepted_report, discover_and_format_cases.
  pose proof (spawned_discovery w _ (discover_events w [] paths)) as Sd.
  destruct H as [Hd | (files & Hd & Hr)]; rewrite Hd; cbn [trace result fst snd].
  - now rewrite Sd.
  - rewrite run_format_cases, Hr. cbn [trace result fst snd].
    rewrite spawned_app, Sd.
    now rewrite (spawned_queries _ (resolve_all_events w files)).
Qed.

End WholeRun.

(** When [main] returns, it returns 0 or -1; and it returns 0 exactly when
    the version check let the run go on and the formatting process, run on
    the files found and resolved, exited with status 0. *)
Theorem main_return_values (w : World) (paths : list str) (code : Z) :
  result (main w paths) = Ok code ->
  (code = 0%Z \/ code = (-1)%Z)
  /\ (code = 0%Z
      <-> version_accepted w
          /\ exists files resolved out err,
               result (discover w [] paths) = Ok files
               /\ result (resolve_all w files) = Ok resolved
               /\ process w (format_argv resolved) = Exited 0 out err).
Proof.
  intros Hres.
  destruct (version_accepted_cases w) as [Hacc | [Hno Hrun]].
  - pose proof Hacc as (version & Hv & Hlt).
    rewrite (main_accepted w paths version Hv Hlt) in Hres.
    cbn [result snd] in Hres.
    apply discover_and_format_ok in Hres
      as (files & resolved & Hd & Hr & Hafter).
    destruct (after_format_cases (process w (format_argv resolved)))
      as [_ [(code' & Hc & Hor & Hiff) | [(reason & Hc & _) | [Hc _]]]];
      rewrite Hc in Hafter; try discriminate.
    injection Hafter as <-. split; [exact Hor|]. split.
    + intros H0. split; [exact Hacc|].
      apply Hiff in H0 as (out & err & Hp). now exists files, resolved, out, err.
    + intros (_ & files' & resolved' & out & err & Hd' & Hr' & Hp).
      rewrite Hd in Hd'. injection Hd' as <-.
      rewrite Hr in Hr'. injection Hr' as <-.
      apply Hiff. now exists out, err.
  - destruct (Hrun paths) as (_ & _ & Hcode). rewrite (Hcode code Hres).
    split; [now right|]. split; [discriminate|]. now intros [Hacc _].
Qed.

Lemma main_return_values_witness :
  result (main world_format_talks [lit "weird.txt"]) = Ok 0%Z
  /\ version_accepted world_format_talks.
Proof.
  assert (H : result (main world_format_talks [lit "weird.txt"]) = Ok 0%Z)
    by (vm_compute; reflexivity).
  split; [exact H|].
  destruct (main_return_values world_format_talks [lit "weird.txt"] 0%Z H)
    as [_ Hiff].
  now apply Hiff.
Defined.

(** A run starts the version query first.  If the version check does not
    let it go on, it starts nothing else and makes no file system query.
    If the check lets it go on and the discovery and the resolving of the
    files complete, it starts the formatting command once, over the
    resolved files, and nothing else; every file system query is made
    between the two processes.  If discovery or the resolving ends in an
    exception, the formatting command is not started and the run ends in
    that exception. *)
Theorem processes_started (w : World) (paths : list str) :
  (~ version_accepted w
   /\ spawned (trace (main w paths)) = [version_cmd]
   /\ filter is_discovery (trace (main w paths)) = [])
  \/ (version_accepted w
      /\ exists files resolved,
           result (discover w [] paths) = Ok files
           /\ result (resolve_all w files) = Ok resolved
           /\ spawned (trace (main w paths))
              = [version_cmd; format_argv resolved]
           /\ exists before after,
                trace (main w paths)
                = Spawn version_cmd :: before
                  ++ Spawn (format_argv resolved) :: after
                /\ spawned before = []
                /\ spawned after = []
                /\ filter is_discovery after = [])
  \/ (version_accepted w
      /\ exists e,
           (result (discover w [] paths) = Raise e
            \/ exists files, result (discover w [] paths) = Ok files
                             /\ result (resolve_all w files) = Raise e)
           /\ spawned (trace (main w paths)) = [version_cmd]
           /\ result (main w paths) = Raise e).
Proof.
  destruct (version_accepted_cases w) as [Hacc | [Hno Hrun]].
  - right. destruct (result (discover w [] paths)) as [files | e] eqn:Hd.
    + destruct (result (resolve_all w files)) as [resolved | e] eqn:Hr.
      * left. split; [exact Hacc|]. exists files, resolved.
        split; [reflexivity|]. split; [exact Hr|].
        now apply main_formats_split with files.
      * right. split; [exact Hacc|]. exists e.
        split; [right; exists files; now split|].
        apply main_stops_before_format; [exact Hacc|].
        right. exists files. now split.
    + right. split; [exact Hacc|]. exists e. split; [now left|].
      apply main_stops_before_format; [exact Hacc | now left].
  - left. split; [exact Hno|]. destruct (Hrun paths) as (H1 & H2 & _).
    now split.
Qed.

(** A [CalledProcessError] never leaves [main]: the non-zero exit status
    of either process is caught.  Nor does the lookup of a group of the
    version pattern fail. *)
Theorem called_process_error_caught (w : World) (paths : list str) :
  match result (main w paths) with
  | Raise (CalledProcessError _ _ _ _) => False
  | Raise IndexError => False
  | _ => True
  end.
Proof.
  rewrite main_cases.
  destruct (process w version_cmd) as [reason | rc out err]; [exact I|].
  destruct (rc =? 0)%Z; [|exact I].
  destruct (utf8_decode out) as [text|]; [|exact I].
  destruct (parse_version w text) as [version | e] eqn:Hv.
  - destruct (Version_lt version CLANG_FORMAT_VER_REQ); [exact I|].
    cbn [result snd].
    destruct (result (discover_and_format w paths)) as [code | e] eqn:Hr;
      [exact I|].
    apply discover_and_format_raises in Hr
      as [[reason ->] | [[reason ->] | ->]]; exact I.
  - apply parse_version_raises in Hv as [-> | ->]; exact I.
Qed.

(** If the formatting command cannot be started, the error is not caught:
    after discovery and the resolving of the files it leaves [main] as an
    exception; nothing more is printed and there is no return value. *)
Theorem formatter_not_started (w : World) (paths : list str)
    (version : Version) (files : list Path) (resolved : list str)
    (reason : str) :
  reports_version w version ->
  Version_lt version CLANG_FORMAT_VER_REQ = false ->
  result (discover w [] paths) = Ok files ->
  result (resolve_all w files) = Ok resolved ->
  process w (format_argv resolved) = NotStarted reason ->
  main w paths
  = (Spawn version_cmd :: accepted_report version
       ++ trace (discover w [] paths)
       ++ map Resolve files
       ++ [Spawn (format_argv resolved)],
     Raise (OSError reason)).
Proof.
  intros Hv Hlt Hd Hr Hp.
  now rewrite (main_formats w paths version files resolved Hv Hlt Hd Hr), Hp.
Qed.

Lemma formatter_not_started_witness :
  reports_version world_argv_too_long (mkVersion 13 0 1)
  /\ result (main world_argv_too_long [lit "d"])
     = Raise (OSError (lit "Argument list too long: 'clang-format'"))
  /\ printed (trace (main world_argv_too_long [lit "d"]))
     = [[Plain (lit "Using clang-format version 13.0.1")]].
Proof.
  assert (H : reports_version world_argv_too_long (mkVersion 13 0 1))
    by (apply reports_sample_version; vm_compute; reflexivity).
  split; [exact H|].
  rewrite (formatter_not_started world_argv_too_long [lit "d"]
             (mkVersion 13 0 1) [lit "d/a.c"; lit "d/b.h"]
             [lit "/work/d/a.c"; lit "/work/d/b.h"] _
             H eq_refl eq_refl eq_refl eq_refl).
  split; vm_compute; reflexivity.
Defined.

(** If the output of the version query is not UTF-8, the run stops with
    [UnicodeDecodeError] right after the query, whatever the exit
    status 0 promised: nothing is printed, looked up or formatted. *)
Theorem undecodable_version_output (w : World) (paths : list str)
    (out err : bytes) :
  process w version_cmd = Exited 0 out err ->
  utf8_decode out = None ->
  main w paths = ([Spawn version_cmd], Raise UnicodeDecodeError).
Proof.
  intros Hp Hd. now rewrite main_cases, Hp, Hd.
Qed.

Lemma undecodable_version_output_witness :
  utf8_decode [Byte.xff] = None
  /\ main world_binary_version [lit "d"]
     = ([Spawn version_cmd], Raise UnicodeDecodeError).
Proof.
  split; [reflexivity|].
  exact (undecodable_version_output world_binary_version [lit "d"]
           [Byte.xff] [] eq_refl eq_refl).
Defined.

(** If the formatting process fails and its error stream is not UTF-8,
    the run does not return -1: it ends in [UnicodeDecodeError] and prints
    nothing about the failure.  If the process exits with status 0 and its
    output stream is not empty and not UTF-8, the run ends in the same
    exception and not with 0. *)
Theorem undecodable_format_output (w : World) (paths : list str)
    (version : Version) (files : list Path) (resolved : list str)
    (rc : Z) (out err : bytes) :
  reports_version w version ->
  Version_lt version CLANG_FORMAT_VER_REQ = false ->
  result (discover w [] paths) = Ok files ->
  result (resolve_all w files) = Ok resolved ->
  process w (format_argv resolved) = Exited rc out err ->
  (rc <> 0%Z -> utf8_decode err = None ->
   main w paths
   = (Spawn version_cmd :: accepted_report version
        ++ trace (discover w [] paths)
        ++ map Resolve files
        ++ [Spawn (format_argv resolved)],
      Raise UnicodeDecodeError))
  /\ (rc = 0%Z -> nonempty out = true -> utf8_decode out = None ->
      main w paths
      = (Spawn version_cmd :: accepted_report version
           ++ trace (discover w [] paths)
           ++ map Resolve files
           ++ [Spawn (format_argv resolved)],
         Raise UnicodeDecodeError)).
Proof.
  intros Hv Hlt Hd Hr Hp.
  rewrite (main_formats w paths version files resolved Hv Hlt Hd Hr), Hp.
  unfold after_format. split.
  - intros Hrc He. apply Z.eqb_neq in Hrc. unfold decode.
    now rewrite Hrc, He.
  - intros -> Hne Ho. cbn [Z.eqb].
    assert (Hpr : print_if_any out = ([], Raise UnicodeDecodeError))
      by (unfold print_if_any, decode; now rewrite Hne, Ho).
    rewrite Hpr. reflexivity.
Qed.

Lemma undecodable_format_output_witness :
  reports_version world_binary_errors (mkVersion 13 0 1)
  /\ result (main world_binary_errors [lit "d"]) = Raise UnicodeDecodeError.
Proof.
  assert (H : reports_version world_binary_errors (mkVersion 13 0 1))
    by (apply reports_sample_version; vm_compute; reflexivity).
  split; [exact H|].
  destruct (undecodable_format_output world_binary_errors [lit "d"]
              (mkVersion 13 0 1) [lit "d/a.c"; lit "d/b.h"]
              [lit "/work/d/a.c"; lit "/work/d/b.h"] 1%Z [] [Byte.xff]
              H eq_refl eq_refl eq_refl eq_refl)
    as [Hfail _].
  now rewrite (Hfail ltac:(discriminate) eq_refl).
Defined.






(* ===================================================================== *)
(** ** Runs that stop in the file system *)
(* ===================================================================== *)

(** A symbolic link that leads back to itself, among the files found,
    stops the run: resolving it raises [RuntimeError], after the files
    before it were resolved, and the formatting command is not started. *)
Theorem symlink_loop_stops_run (w : World) (paths : list str)
    (version : Version) (before after : list Path) (f : Path)
    (reason : str) :
  reports_version w version ->
  Version_lt version CLANG_FORMAT_VER_REQ = false ->
  result (discover w [] paths) = Ok (before ++ f :: after) ->
  Forall (fun p => exists r, fs_resolve w p = Resolved r) before ->
  fs_resolve w f = SymlinkLoop reason ->
  main w paths
  = (Spawn version_cmd :: accepted_report version
       ++ trace (discover w [] paths)
       ++ map Resolve (before ++ [f]),
     Raise (RuntimeError reason))
  /\ spawned (trace (main w paths)) = [version_cmd].
Proof.
  intros Hv Hlt Hd Hbefore Hf.
  assert (Hr : resolve_all w (before ++ f :: after)
               = (map Resolve (before ++ [f]), Raise (RuntimeError reason))).
  { clear Hd. induction Hbefore as [|p before [r Hp] _ IH].
    - cbn [app resolve_all]. unfold path_resolve. now rewrite Hf.
    - cbn [app resolve_all]. unfold path_resolve at 1. rewrite Hp, IH.
      reflexivity. }
  assert (Hmain : main w paths
                  = (Spawn version_cmd :: accepted_report version
                       ++ trace (discover w [] paths)
                       ++ map Resolve (before ++ [f]),
                     Raise (RuntimeError reason))).
  { rewrite (main_accepted w paths version Hv Hlt).
    rewrite discover_and_format_cases, Hd, run_format_cases, Hr.
    reflexivity. }
  split; [exact Hmain|].
  apply (main_stops_before_format w paths (RuntimeError reason)).
  - now exists version.
  - right. exists (before ++ f :: after). split; [exact Hd|].
    now rewrite Hr.
Qed.

Lemma symlink_loop_stops_run_witness :
  reports_version world_symlink_loop (mkVersion 13 0 1)
  /\ result (discover world_symlink_loop [] [lit "d"])
     = Ok [lit "d/a.c"; lit "d/loop.c"]
  /\ fs_resolve world_symlink_loop (lit "d/loop.c")
     = SymlinkLoop (lit "Symlink loop from '/work/d/loop.c'")
  /\ result (main world_symlink_loop [lit "d"])
     = Raise (RuntimeError (lit "Symlink loop from '/work/d/loop.c'"))
  /\ spawned (trace (main world_symlink_loop [lit "d"])) = [version_cmd].
Proof.
  assert (H : reports_version world_symlink_loop (mkVersion 13 0 1)).
  { exists (bytes_of "clang-format version 13.0.1"), [],
           (lit "clang-format version 13.0.1").
    repeat split; vm_compute; reflexivity. }
  split; [exact H|]. split; [vm_compute; reflexivity|].
  split; [reflexivity|].
  destruct (symlink_loop_stops_run world_symlink_loop [lit "d"]
              (mkVersion 13 0 1) [lit "d/a.c"] [] (lit "d/loop.c")
              (lit "Symlink loop from '/work/d/loop.c'") H eq_refl)
    as [Hmain Hs].
  - vm_compute. reflexivity.
  - repeat constructor. eexists. vm_compute. reflexivity.
  - reflexivity.
  - rewrite Hmain. split; [reflexivity | exact Hs].
Defined.



(* ===================================================================== *)
(** ** Runs on ASCII output *)
(* ===================================================================== *)

Lemma utf8_decode_ascii (b : bytes) :
  ascii_bytes b -> utf8_decode b = Some (map Byte.to_N b).
Proof.
  unfold utf8_decode. induction 1 as [|x b Hx _ IH]; [reflexivity|].
  cbn [map utf8_decode_N]. apply N.ltb_lt in Hx. now rewrite Hx, IH.
Qed.

Lemma print_if_any_ascii (b : bytes) :
  ascii_bytes b -> exists t, print_if_any b = (t, Ok tt).
Proof.
  intros H. unfold print_if_any, decode. rewrite (utf8_decode_ascii b H).
  destruct (nonempty b); now eexists.
Qed.

Lemma after_format_ascii (rc : Z) (out err : bytes) :
  ascii_bytes out -> ascii_bytes err ->
  result (after_format (Exited rc out err))
  = Ok (if (rc =? 0)%Z then 0 else -1)%Z.
Proof.
  intros Ho He. unfold after_format. destruct (rc =? 0)%Z.
  - destruct (print_if_any_ascii out Ho) as [t1 ->].
    destruct (print_if_any_ascii err He) as [t2 ->]. reflexivity.
  - unfold decode. now rewrite (utf8_decode_ascii err He).
Qed.

(** Where the processes write ASCII only, a run never ends in a decoding
    error; and once the version check is passed and the files are found
    and resolved, the exit status of the formatting process decides what
    the run returns: 0 for status 0, else -1. *)
Theorem ascii_output_decodes (w : World) (paths : list str) :
  ascii_processes w ->
  match result (main w paths) with
  | Raise UnicodeDecodeError => False
  | _ => True
  end
  /\ (forall files resolved rc out err,
         version_accepted w ->
         result (discover w [] paths) = Ok files ->
         result (resolve_all w files) = Ok resolved ->
         process w (format_argv resolved) = Exited rc out err ->
         result (main w paths) = Ok (if (rc =? 0)%Z then 0 else -1)%Z).
Proof.
  intros Hascii. split.
  - rewrite main_cases.
    destruct (process w version_cmd) as [reason | rc out err] eqn:Hp;
      [exact I|].
    destruct (rc =? 0)%Z; [|exact I].
    destruct (Hascii _ _ _ _ Hp) as [Hout _].
    rewrite (utf8_decode_ascii out Hout).
    destruct (parse_version w (map Byte.to_N out)) as [version | e] eqn:Hv.
    + destruct (Version_lt version CLANG_FORMAT_VER_REQ); [exact I|].
      cbn [result snd]. rewrite discover_and_format_cases.
      destruct (result (discover w [] paths)) as [files | e] eqn:Hd.
      * cbn [result snd]. rewrite run_format_cases.
        destruct (result (resolve_all w files)) as [resolved | e] eqn:Hr.
        -- cbn [result snd].
           destruct (process w (format_argv resolved))
             as [reason | rc' out' err'] eqn:Hp'; [exact I|].
           destruct (Hascii _ _ _ _ Hp') as [Hout' Herr'].
           now rewrite (after_format_ascii rc' out' err' Hout' Herr').
        -- cbn [result snd]. apply resolve_all_raises in Hr as [r ->].
           exact I.
      * cbn [result snd]. apply discover_raises in Hd as [r ->]. exact I.
    + apply parse_version_raises in Hv as [-> | ->]; exact I.
  - intros files resolved rc out err (version & Hv & Hlt) Hd Hr Hp.
    rewrite (main_formats w paths version files resolved Hv Hlt Hd Hr), Hp.
    destruct (Hascii _ _ _ _ Hp) as [Hout Herr].
    apply (after_format_ascii rc out err Hout Herr).
Qed.

Lemma ascii_output_decodes_witness :
  ascii_processes world_format_fails
  /\ result (main world_format_fails [lit "d"]) = Ok (-1)%Z.
Proof.
  assert (H : ascii_processes world_format_fails).
  { intros cmd rc out err. cbn [process world_format_fails sample_world].
    destruct (cmd_eqb cmd [lit "clang-format"; lit "--version"]);
      intros [= <- <- <-]; split; repeat constructor. }
  split; [exact H|].
  destruct (ascii_output_decodes world_format_fails [lit "d"] H)
    as [_ Hcode].
  apply (Hcode [lit "d/a.c"; lit "d/b.h"]
               [lit "/work/d/a.c"; lit "/work/d/b.h"]
               1%Z [] (bytes_of "error: unknown key")).
  - exists (mkVersion 13 0 1). split; [|reflexivity].
    apply reports_sample_version. vm_compute. reflexivity.
  - reflexivity.
  - reflexivity.
  - reflexivity.
Defined.
